(** * ReactDesk: the IPC trust boundary between preload and main process

    A shallow embedding of the two files that make up the boundary:

    - the preload script (the Bridge Layer): [validators] and the object
      handed to [contextBridge.exposeInMainWorld('electronAPI', ...)];
    - the main process (the Host): the five [ipcMain.handle] handlers.

    Around them: the handler module of ipc/handlers with Electron's
    registry, the renderer's hooks [useIPC] and [useAppVersion],
    [formatFileSize], and the navigation and window policies of the main
    process.

    JavaScript values are modelled as data, strings as lists of UTF-16 code
    units, numbers as the extended rationals (every finite double is a
    rational, and the handlers only compare, test for integrality and
    truncate), thrown errors as an error result.  What crosses the IPC
    channel is such data.  What the renderer hands the surface may hold
    functions besides: an argument of a Bridge method is its data together
    with the outcome of the one call the methods make into it.  Effects
    are explicit: a
    Bridge method is a small tree of [ipcRenderer.invoke] requests, a Host
    handler returns the trace of filesystem, dialog and console calls it
    made next to its completion. *)

From Stdlib Require Import String Ascii ZArith QArith Lia Lqa.
From stdpp Require Import base option list strings gmap.

Set Warnings "-register-all".
Local Open Scope Z_scope.

(** ** JavaScript data *)

Module Js.

(** A string is its sequence of UTF-16 code units. *)
Abbreviation jsstring := (list N).

(** A string literal of the source, code unit by code unit. *)
Definition lit (s : string) : jsstring :=
  map N_of_ascii (list_ascii_of_string s).

(** Numbers: NaN, the two infinities and the finite values.  The two zeros
    are one value here; no code below tells them apart. *)
Inductive number : Type :=
| NaN
| Infinity (negative : bool)
| Finite (q : Q).

Definition of_Z (z : Z) : number := Finite (inject_Z z).

(** Values that can cross the bridge: structured data, no functions. *)
Inductive value : Type :=
| Undefined
| Null
| Boolean (b : bool)
| Number (n : number)
| Str (s : jsstring)
| Array (items : list value)
| Object (fields : list (jsstring * value)).

Inductive type_name : Type :=
| TyUndefined | TyObject | TyBoolean | TyNumber | TyString.

#[global] Instance type_name_eq_dec : EqDecision type_name.
Proof. solve_decision. Defined.

(** [typeof v] *)
Definition typeof (v : value) : type_name :=
  match v with
  | Undefined => TyUndefined
  | Null => TyObject
  | Boolean _ => TyBoolean
  | Number _ => TyNumber
  | Str _ => TyString
  | Array _ => TyObject
  | Object _ => TyObject
  end.

(** An [Error] object: its constructor name and its message. *)
Record error : Type := mkError { err_name : jsstring; err_message : jsstring }.

(** [new Error(msg)] *)
Definition Error (msg : string) : error := mkError (lit "Error") (lit msg).

(** How an evaluation ends: with a value or with a thrown error. *)
Inductive completion (A : Type) : Type :=
| Return (a : A)
| Throw (e : error).
Arguments Return {A} a.
Arguments Throw {A} e.

(** *** Numbers *)

(** [isNaN(n)] and [isFinite(n)] on a number. *)
Definition isNaN (n : number) : bool :=
  match n with NaN => true | _ => false end.

Definition isFinite (n : number) : bool :=
  match n with Finite _ => true | _ => false end.

(** [a <= b]; every comparison with NaN is false. *)
Definition le (a b : number) : bool :=
  match a, b with
  | NaN, _ | _, NaN => false
  | Infinity true, _ => true
  | _, Infinity false => true
  | Infinity false, _ => false
  | _, Infinity true => false
  | Finite p, Finite q => Qle_bool p q
  end.

(** [a < b] *)
Definition lt (a b : number) : bool :=
  match a, b with
  | NaN, _ | _, NaN => false
  | _, _ => negb (le b a)
  end.

(** [a >= b] and [a > b] *)
Definition ge (a b : number) : bool := le b a.
Definition gt (a b : number) : bool := lt b a.

(** [Number.isInteger(n)] *)
Definition isInteger (n : number) : bool :=
  match n with
  | Finite q => Qnum q mod Zpos (Qden q) =? 0
  | _ => false
  end.

(** *** Strings *)

(** [s.startsWith(needle)] *)
Fixpoint startsWith (s needle : jsstring) {struct needle} : bool :=
  match needle, s with
  | [], _ => true
  | _ :: _, [] => false
  | a :: needle', b :: s' => (a =? b)%N && startsWith s' needle'
  end.

(** [s.includes(needle)] *)
Fixpoint includes (s needle : jsstring) : bool :=
  startsWith s needle ||
  match s with
  | [] => false
  | _ :: s' => includes s' needle
  end.

(** [n] copies of [s], one after the other. *)
Definition copies (n : nat) (s : jsstring) : jsstring :=
  concat (replicate n s).

(** [s.repeat(count)]: the count is truncated towards zero (NaN counts as
    zero); a negative or infinite count is a [RangeError]. *)
Definition repeat (s : jsstring) (count : number) : completion jsstring :=
  match count with
  | NaN => Return []
  | Infinity _ =>
      Throw (mkError (lit "RangeError") (lit "Invalid count value: Infinity"))
  | Finite q =>
      let n := Z.quot (Qnum q) (Zpos (Qden q)) in
      if n <? 0
      then Throw (mkError (lit "RangeError") (lit "Invalid count value"))
      else Return (copies (Z.to_nat n) s)
  end.

(** *** Property access *)

Fixpoint lookup_field (k : jsstring) (fields : list (jsstring * value))
  : option value :=
  match fields with
  | [] => None
  | (k', v) :: rest => if decide (k = k') then Some v else lookup_field k rest
  end.

(** [v.k] for an own data property [k]: reading a property of [undefined]
    or [null] throws a [TypeError]; a missing property is [undefined].
    Inherited properties (such as [length]) are never read by the code
    modelled here through this function. *)
Definition get (v : value) (k : string) : completion value :=
  match v with
  | Undefined | Null =>
      Throw (mkError (lit "TypeError") (lit "Cannot read properties"))
  | Object fields => Return (default Undefined (lookup_field (lit k) fields))
  | _ => Return Undefined
  end.

(** [v?.k] *)
Definition get_opt (v : value) (k : string) : value :=
  match v with
  | Object fields => default Undefined (lookup_field (lit k) fields)
  | _ => Undefined
  end.

(** Truthiness, as used by [if] and [&&]. *)
Definition truthy (v : value) : bool :=
  match v with
  | Undefined | Null => false
  | Boolean b => b
  | Number NaN => false
  | Number (Infinity _) => true
  | Number (Finite q) => negb (Qnum q =? 0)
  | Str s => negb (bool_decide (s = []))
  | Array _ | Object _ => true
  end.

Definition isArray (v : value) : bool :=
  match v with Array _ => true | _ => false end.

(** [v === null] *)
Definition is_null (v : value) : bool :=
  match v with Null => true | _ => false end.

(** [v === s] for a string [s] *)
Definition is_string (s : jsstring) (v : value) : bool :=
  match v with Str t => bool_decide (t = s) | _ => false end.

(** [items.includes(s)] for a string [s] *)
Definition array_includes (items : list value) (s : jsstring) : bool :=
  existsb (is_string s) items.

End Js.

Import Js.

(** ** The Bridge Layer (preload script) *)

Module Preload.

(** *** Requests over [ipcRenderer.invoke]

    An async method of the surface either settles without touching the
    channel, or calls [ipcRenderer.invoke(channel, ...args)] and goes on
    with the Host's answer. *)
Inductive bridge (A : Type) : Type :=
| Done (a : A)
| Fail (e : error)
| Invoke (channel : jsstring) (args : list value)
    (k : completion value -> bridge A).
Arguments Done {A} a.
Arguments Fail {A} e.
Arguments Invoke {A} channel args k.

Fixpoint bind {A B} (m : bridge A) (f : A -> bridge B) : bridge B :=
  match m with
  | Done a => f a
  | Fail e => Fail e
  | Invoke c args k => Invoke c args (fun r => bind (k r) f)
  end.

#[global] Instance bridge_bind : MBind bridge := fun A B f m => bind m f.
#[global] Instance bridge_ret : MRet bridge := fun A a => Done a.

(** A plain (synchronous) evaluation inside an async method. *)
Definition eval {A} (c : completion A) : bridge A :=
  match c with Return a => Done a | Throw e => Fail e end.

(** [return await ipcRenderer.invoke(channel, ...args)] *)
Definition invoke (channel : string) (args : list value) : bridge value :=
  Invoke (lit channel) args eval.

(** One request as it travels over the channel. *)
Record envelope : Type :=
  mkEnvelope { env_channel : jsstring; env_args : list value }.

(** What a call of a method amounts to: the requests sent over the channel,
    in order, the effects the Host performed while answering them, and how
    the returned promise settles. *)
Record outcome (E A : Type) : Type :=
  mkOutcome { sent : list envelope;
              host_effects : list E;
              settled : completion A }.
Arguments mkOutcome {E A} sent host_effects settled.
Arguments sent {E A} o.
Arguments host_effects {E A} o.
Arguments settled {E A} o.

(** Running a method against a Host that answers each request with the
    effects it performed and its completion. *)
Fixpoint run {E A} (host : envelope -> list E * completion value)
  (m : bridge A) : outcome E A :=
  match m with
  | Done a => mkOutcome [] [] (Return a)
  | Fail e => mkOutcome [] [] (Throw e)
  | Invoke c args k =>
      let req := mkEnvelope c args in
      let '(eff, answer) := host req in
      let o := run host (k answer) in
      mkOutcome (req :: sent o) (eff ++ host_effects o) (settled o)
  end.

(** *** validators *)

Definition isValidString (v : value) (maxLength : Z) : bool :=
  match v with
  | Str s => Z.of_nat (length s) <=? maxLength
  | _ => false
  end.

Definition isValidNumber (v : value) (min max : number) : bool :=
  match v with
  | Number n => negb (isNaN n) && isFinite n && ge n min && le n max
  | _ => false
  end.

(** The one-character string holding the null character (code unit 0). *)
Definition NUL : jsstring := [0%N].

Definition isValidPath (v : value) : bool :=
  match v with
  | Str s =>
      (0 <? Z.of_nat (length s)) && (Z.of_nat (length s) <? 4096)
      && negb (includes s NUL)
  | _ => false
  end.

(** *** The object passed to [contextBridge.exposeInMainWorld] *)

Definition getAppVersion (_ : value) : bridge value :=
  invoke "get-app-version" [].

Definition ping (_ : value) : bridge value :=
  invoke "ping" [].

Definition processData (data : value) : bridge value :=
  text ← eval (get data "text");
  if negb (isValidString text 1000)
  then Fail (Error
    "Invalid text field: must be a string with max 1000 characters")
  else
    count ← eval (get data "count");
    if negb (isValidNumber count (of_Z 0) (of_Z 100))
    then Fail (Error
      "Invalid count field: must be a number between 0 and 100")
    else invoke "process-data" [data].

(** [validProperties.includes(prop)] *)
Definition validProperties : list jsstring :=
  [lit "openFile"; lit "openDirectory"; lit "multiSelections"].

Definition is_valid_property (prop : value) : bool :=
  existsb (fun valid => is_string valid prop) validProperties.

Definition not_a_function : error :=
  mkError (lit "TypeError") (lit "not a function").

(** The predicate given to [options.filters.filter]; reading [filter.name]
    throws when the entry is [undefined] or [null]. *)
Definition is_valid_filter (filter : value) : completion bool :=
  match get filter "name" with
  | Throw e => Throw e
  | Return name =>
      if bool_decide (typeof name = TyString)
      then
        match get_opt filter "extensions" with
        | Array exts =>
            Return (forallb (fun ext => bool_decide (typeof ext = TyString)) exts)
        | _ => Return false
        end
      else Return false
  end.

(** [items.filter(pred)] for a predicate that may throw. *)
Fixpoint filter_array (pred : value -> completion bool) (items : list value)
  : completion (list value) :=
  match items with
  | [] => Return []
  | x :: rest =>
      match pred x with
      | Throw e => Throw e
      | Return keep =>
          match filter_array pred rest with
          | Throw e => Throw e
          | Return kept => Return (if keep then x :: kept else kept)
          end
      end
  end.

(** What calling a function of the renderer's gave the preload script: a
    value, something that holds functions and so cannot be sent over the
    channel, or a throw. *)
Inductive call_result : Type :=
| Returned (v : value)
| ReturnedUnsendable
| Threw (e : error).

(** An argument as the renderer hands it to a method of the surface.  The
    context bridge passes functions along with data.  [arg_data] is the
    data.  The one function of the renderer's that a method below calls is
    [options.properties.filter], for an [options.properties] that is no
    array: [filter_call] is what that call gives, and [None] when
    [options.properties] has no function of that name.  No other function
    in an argument is ever called, and none passes a [typeof] or
    [Array.isArray] test of the methods: in the data it reads as an object
    without members. *)
Record argument : Type :=
  mkArgument { arg_data : value; filter_call : option call_result }.

(** An argument that is data throughout. *)
Definition plain (v : value) : argument := mkArgument v None.

Definition filter_is_not_a_function : error :=
  mkError (lit "TypeError") (lit "options.properties.filter is not a function").

(** What [ipcRenderer.invoke] throws on an argument it cannot clone. *)
Definition could_not_be_cloned : error :=
  mkError (lit "Error") (lit "An object could not be cloned.").

Definition showOpenDialog (a : argument) : bridge value :=
  let options := arg_data a in
  let properties := get_opt options "properties" in
  safe1 ←
    (if truthy properties
     then
       match properties with
       | Array items =>
           Done (Some [(lit "properties",
                        Array (filter is_valid_property items))])
       | _ =>
           match filter_call a with
           | Some (Returned v) => Done (Some [(lit "properties", v)])
           | Some ReturnedUnsendable => Done None
           | Some (Threw e) => Fail e
           | None => Fail filter_is_not_a_function
           end
       end
     else Done (Some []));
  let filters := get_opt options "filters" in
  safe2 ←
    (if truthy filters && isArray filters
     then
       match filters with
       | Array items =>
           kept ← eval (filter_array is_valid_filter items);
           Done [(lit "filters", Array kept)]
       | _ => Done []
       end
     else Done []);
  match safe1 with
  | Some safe1 => invoke "show-open-dialog" [Object (safe1 ++ safe2)]
  | None => Fail could_not_be_cloned
  end.

Definition readFile (filePath : value) : bridge value :=
  if negb (isValidPath filePath)
  then Fail (Error "Invalid file path")
  else
    match filePath with
    | Str p =>
        if includes p (lit "..")
        then Fail (Error "Path traversal detected")
        else invoke "read-file" [filePath]
    | _ => Fail not_a_function
    end.

(** *** [ipcRenderer] as an event emitter

    [ipcRenderer.on] and [ipcRenderer.removeListener] are those of Node's
    [EventEmitter]: listeners are kept per event name in the order they
    were added; [removeListener] takes out at most one entry, the most
    recently added one that is the very same function, and forgets an event
    name whose last listener went away. *)

(** A callback of the renderer, known by its identity. *)
Definition callback : Type := nat.

(** A listener is a function object, known by its identity: the index of
    the [safeCallback] closure among the closures created so far. *)
Definition listener : Type := nat.

(** The preload world: the [safeCallback] closures created so far, each with
    the callback it captured, and the listeners of [ipcRenderer]. *)
Record renderer : Type :=
  mkRenderer { closures : list callback;
               events : gmap jsstring (list listener) }.

Definition listeners (channel : jsstring) (R : renderer) : list listener :=
  default [] (events R !! channel).

Definition on (channel : jsstring) (l : listener)
  (E : gmap jsstring (list listener)) : gmap jsstring (list listener) :=
  <[channel := default [] (E !! channel) ++ [l]]> E.

(** Take out the last entry that is the function [l], if there is one. *)
Fixpoint remove_last (l : listener) (ls : list listener)
  : option (list listener) :=
  match ls with
  | [] => None
  | l' :: rest =>
      match remove_last l rest with
      | Some rest' => Some (l' :: rest')
      | None => if decide (l' = l) then Some rest else None
      end
  end.

Definition removeListener (channel : jsstring) (l : listener)
  (E : gmap jsstring (list listener)) : gmap jsstring (list listener) :=
  match E !! channel with
  | None => E
  | Some ls =>
      match remove_last l ls with
      | None => E
      | Some [] => delete channel E
      | Some ls' => <[channel := ls']> E
      end
  end.

(** What the renderer can see of a delivered event. *)
Inductive observation : Type :=
| Called (cb : callback) (message : jsstring)
| ConsoleWarn (text : jsstring).

(** The body of [safeCallback], for the callback it captured. *)
Definition safeCallback (cb : callback) (message : value) : list observation :=
  match message with
  | Str s => [Called cb s]
  | _ => [ConsoleWarn (lit "Received invalid notification data")]
  end.

(** The Host sends [message] on [channel]: every listener runs, in order. *)
Definition emit (channel : jsstring) (message : value) (R : renderer)
  : list observation :=
  l ← listeners channel R;
  match closures R !! l with
  | Some cb => safeCallback cb message
  | None => []
  end.

(** The function returned by [onNotification]. *)
Definition unsubscribe (safe : listener) (R : renderer) : renderer :=
  mkRenderer (closures R)
             (removeListener (lit "notification") safe (events R)).

Definition onNotification (cb : callback) (R : renderer)
  : renderer * (renderer -> renderer) :=
  let safe := length (closures R) in
  (mkRenderer (closures R ++ [cb])
              (on (lit "notification") safe (events R)),
   unsubscribe safe).

(** *** The published surface *)

Inductive method : Type :=
| Async (f : argument -> bridge value)
| Subscription (f : callback -> renderer -> renderer * (renderer -> renderer)).

Definition electronAPI : list (jsstring * method) :=
  [ (lit "getAppVersion", Async (fun a => getAppVersion (arg_data a)));
    (lit "ping", Async (fun a => ping (arg_data a)));
    (lit "processData", Async (fun a => processData (arg_data a)));
    (lit "showOpenDialog", Async showOpenDialog);
    (lit "readFile", Async (fun a => readFile (arg_data a)));
    (lit "onNotification", Subscription onNotification) ].

(** *** The object as the script builds it

    An object as far as its own members and their protection go:
    [extensible] says whether members can be added, [writable] whether the
    members there can be replaced. *)
Record object : Type :=
  mkObject { members : list (jsstring * method);
             extensible : bool;
             writable : bool }.

(** An object literal: open to new members, every member writable. *)
Definition literal (fields : list (jsstring * method)) : object :=
  mkObject fields true true.

(** [Object.freeze(o)] and [Object.isFrozen(o)] *)
Definition freeze (o : object) : object := mkObject (members o) false false.

Definition isFrozen (o : object) : bool :=
  negb (extensible o) && negb (writable o).

Fixpoint replace_member (name : jsstring) (m : method)
  (fields : list (jsstring * method)) : option (list (jsstring * method)) :=
  match fields with
  | [] => None
  | (k, m') :: rest =>
      if decide (name = k) then Some ((k, m) :: rest)
      else
        match replace_member name m rest with
        | Some rest' => Some ((k, m') :: rest')
        | None => None
        end
  end.

(** [o[name] = m]: a member there is replaced when the object lets it be
    written, a new one is added at the end when the object is extensible;
    otherwise nothing changes. *)
Definition assign (name : jsstring) (m : method) (o : object) : object :=
  match replace_member name m (members o) with
  | Some fields =>
      if writable o then mkObject fields (extensible o) (writable o) else o
  | None =>
      if extensible o
      then mkObject (members o ++ [(name, m)]) (extensible o) (writable o)
      else o
  end.

(** The two arguments of [contextBridge.exposeInMainWorld]: the name and
    the object literal, which the script passes on as it is. *)
Definition exposed : jsstring * object :=
  (lit "electronAPI", literal electronAPI).

End Preload.

(** ** The Host (main process) *)

Module Main.

(** *** The system the handlers run on *)

Inductive platform : Type := Posix | Win32.

Definition isPathSeparator (c : N) : bool := ((c =? 47) || (c =? 92))%N.

Definition isWindowsDeviceRoot (c : N) : bool :=
  ((65 <=? c) && (c <=? 90) || (97 <=? c) && (c <=? 122))%N.

(** [path.isAbsolute(p)] of Node, for a string [p]. *)
Definition isAbsolute (pf : platform) (p : jsstring) : bool :=
  match pf, p with
  | _, [] => false
  | Posix, c :: _ => (c =? 47)%N
  | Win32, c :: rest =>
      isPathSeparator c ||
      ((2 <? Z.of_nat (length p)) && isWindowsDeviceRoot c &&
       match rest with
       | c1 :: c2 :: _ => (c1 =? 58)%N && isPathSeparator c2
       | _ => false
       end)
  end.

(** What [fs.promises.stat] resolves to, as far as the handler looks. *)
Record stats : Type := mkStats { st_isFile : bool; st_size : Z }.

(** Everything outside the handlers that they consult. *)
Record system : Type := mkSystem {
  sys_platform : platform;
  fs_stat : jsstring -> completion stats;
  fs_readFile : jsstring -> completion jsstring;
  dialog_showOpenDialog : value -> completion value;
  date_now : Z;
  app_getVersion : jsstring;
  app_getName : jsstring;
  versions_electron : jsstring;
  versions_chrome : jsstring;
  versions_node : jsstring;
  mainWindow : bool
}.

(** The calls a handler makes outside itself. *)
Inductive effect : Type :=
| ConsoleLog (text : jsstring)
| ConsoleError (text : jsstring) (e : error)
| FsStat (path : jsstring)
| FsReadFile (path : jsstring) (encoding : jsstring)
| DialogShowOpenDialog (options : value).

Definition is_fs_access (x : effect) : bool :=
  match x with
  | FsStat _ | FsReadFile _ _ => true
  | _ => false
  end.

(** A handler's run: the effects so far and the completion. *)
Definition host (A : Type) : Type := list effect * completion A.

Definition ret {A} (a : A) : host A := ([], Return a).
Definition throw {A} (e : error) : host A := ([], Throw e).
Definition perform {A} (x : effect) (r : completion A) : host A := ([x], r).

Definition bind {A B} (m : host A) (f : A -> host B) : host B :=
  match m with
  | (tr, Throw e) => (tr, Throw e)
  | (tr, Return a) => let '(tr', r) := f a in (tr ++ tr', r)
  end.

#[global] Instance host_bind : MBind host := fun A B f m => bind m f.
#[global] Instance host_ret : MRet host := fun A a => ret a.

(** [try { body } catch (error) { handler }] *)
Definition try_catch {A} (body : host A) (handler : error -> host A) : host A :=
  match body with
  | (tr, Return a) => (tr, Return a)
  | (tr, Throw e) => let '(tr', r) := handler e in (tr ++ tr', r)
  end.

(** *** The handlers *)

(** The first argument after [_event]. *)
Definition arg0 (args : list value) : value := default Undefined (args !! 0%nat).

Definition handle_ping (sys : system) (args : list value) : host value :=
  _ ← perform (ConsoleLog (lit "Received ping from renderer")) (Return ());
  ret (Str (lit "pong")).

Definition handle_get_app_version (sys : system) (args : list value)
  : host value :=
  ret (Object
    [ (lit "version", Str (app_getVersion sys));
      (lit "name", Str (app_getName sys));
      (lit "electronVersion", Str (versions_electron sys));
      (lit "chromeVersion", Str (versions_chrome sys));
      (lit "nodeVersion", Str (versions_node sys)) ]).

Definition is_dialog_property (p : value) : bool :=
  existsb (fun valid => is_string valid p)
    [lit "openFile"; lit "openDirectory"; lit "multiSelections"].

Definition handle_show_open_dialog (sys : system) (args : list value)
  : host value :=
  let options := arg0 args in
  let safeOptions :=
    Object
      [ (lit "properties",
         match get_opt options "properties" with
         | Array items => Array (filter is_dialog_property items)
         | _ => Array [Str (lit "openFile")]
         end);
        (lit "filters",
         match get_opt options "filters" with
         | Array items => Array items
         | _ => Array []
         end) ] in
  if negb (mainWindow sys)
  then throw (Error "No main window available")
  else
    perform (DialogShowOpenDialog safeOptions)
            (dialog_showOpenDialog sys safeOptions).

Definition MAX_FILE_SIZE : Z := 10 * 1024 * 1024.

Definition invalid_arg_type : error :=
  mkError (lit "TypeError") (lit "invalid argument type").

Definition handle_read_file (sys : system) (args : list value) : host value :=
  match arg0 args with
  | Str filePath =>
      if includes filePath (lit "..")
         || negb (isAbsolute (sys_platform sys) filePath)
      then throw (Error "Invalid file path")
      else
        try_catch
          (st ← perform (FsStat filePath) (fs_stat sys filePath);
           if negb (st_isFile st)
           then throw (Error "Path is not a file")
           else if st_size st >? MAX_FILE_SIZE
           then throw (Error "File too large")
           else
             content ← perform (FsReadFile filePath (lit "utf-8"))
                               (fs_readFile sys filePath);
             ret (Str content))
          (fun error =>
             _ ← perform (ConsoleError (lit "Error reading file:") error)
                         (Return ());
             throw error)
  | Array items =>
      (* [Array.prototype.includes], then [path.isAbsolute] on a non-string *)
      if array_includes items (lit "..")
      then throw (Error "Invalid file path")
      else throw invalid_arg_type
  | Undefined | Null =>
      throw (mkError (lit "TypeError") (lit "Cannot read properties"))
  | _ => throw Preload.not_a_function
  end.

Definition handle_process_data (sys : system) (args : list value)
  : host value :=
  let data := arg0 args in
  if negb (bool_decide (typeof data = TyObject)) || is_null data
  then throw (Error "Invalid data format")
  else
    let text := get_opt data "text" in
    let count := get_opt data "count" in
    match text with
    | Str text_s =>
        if Z.of_nat (length text_s) >? 1000
        then throw (Error "Invalid text field")
        else
          match count with
          | Number n =>
              if lt n (of_Z 0) || gt n (of_Z 100) || negb (isInteger n)
              then throw (Error "Invalid count field")
              else
                match repeat text_s n with
                | Throw e => throw e
                | Return processed =>
                    ret (Object
                      [ (lit "processed", Str processed);
                        (lit "timestamp", Number (of_Z (date_now sys))) ])
                end
          | _ => throw (Error "Invalid count field")
          end
    | _ => throw (Error "Invalid text field")
    end.

(** *** The registry filled by [ipcMain.handle] *)

Definition handler : Type := system -> list value -> host value.

Definition ipcMain : gmap jsstring handler :=
  list_to_map
    [ (lit "ping", handle_ping);
      (lit "get-app-version", handle_get_app_version);
      (lit "show-open-dialog", handle_show_open_dialog);
      (lit "read-file", handle_read_file);
      (lit "process-data", handle_process_data) ].

(** An [invoke] request arriving at the Host. *)
Definition dispatch (sys : system) (req : Preload.envelope) : host value :=
  match ipcMain !! Preload.env_channel req with
  | Some h => h sys (Preload.env_args req)
  | None => throw (Error "No handler registered")
  end.

(** A renderer call of a method of the surface, end to end. *)
Definition call (sys : system) (m : Preload.bridge value)
  : Preload.outcome effect value :=
  Preload.run (dispatch sys) m.

End Main.

(** ** Vocabulary of the statements *)

(** [needle] occurs somewhere in [s]. *)
Definition contains (s needle : jsstring) : Prop :=
  exists pre post, s = pre ++ needle ++ post.

(** The number [n] is the integer [z]. *)
Definition is_int (n : number) (z : Z) : Prop :=
  match n with
  | Finite q => (q == inject_Z z)%Q
  | _ => False
  end.

(** A count the bounded text transform declares valid: an integer of
    0..100. *)
Definition valid_count (v : value) : Prop :=
  exists n z, v = Number n /\ is_int n z /\ 0 <= z <= 100.

(** The segments of a path, split at ['/']. *)
Fixpoint segments (p : jsstring) : list jsstring :=
  match p with
  | [] => [[]]
  | c :: rest =>
      if (c =? 47)%N then [] :: segments rest
      else
        match segments rest with
        | seg :: segs => (c :: seg) :: segs
        | [] => [[c]]
        end
  end.

(** The error Node's filesystem calls reject with for a missing path. *)
Definition ENOENT (syscall : string) (p : jsstring) : error :=
  mkError (lit "Error")
    (lit "ENOENT: no such file or directory, " ++ lit syscall ++ lit " '"
     ++ p ++ lit "'").

(** A system to run the handlers on: one small text file, one directory
    and one file just over the size ceiling; every other path does not
    exist. *)
Definition sample_stat (p : jsstring) : completion Main.stats :=
  if decide (p = lit "/home/user/notes.txt") then Return (Main.mkStats true 12)
  else if decide (p = lit "/home/user") then Return (Main.mkStats false 4096)
  else if decide (p = lit "/var/big.bin")
  then Return (Main.mkStats true (10 * 1024 * 1024 + 1))
  else Throw (ENOENT "stat" p).

Definition sample_readFile (p : jsstring) : completion jsstring :=
  if decide (p = lit "/home/user/notes.txt") then Return (lit "hello world")
  else if decide (p = lit "/var/big.bin") then Return (replicate 8 0%N)
  else Throw (ENOENT "open" p).

Definition sample_system : Main.system :=
  Main.mkSystem Main.Posix sample_stat sample_readFile
    (fun _ => Return (Object [(lit "canceled", Boolean true);
                              (lit "filePaths", Array [])]))
    1700000000000
    (lit "1.0.0") (lit "reactdesk-ts") (lit "27.0.0") (lit "118.0.0")
    (lit "18.17.1") true.

(** A payload whose count is 1.5. *)
Definition fractional_count_input : value :=
  Object [(lit "text", Str (lit "a")); (lit "count", Number (Finite (3 # 2)))].

(** The channels the Host answers requests on. *)
Definition request_channels : list jsstring :=
  [ lit "get-app-version"; lit "ping"; lit "process-data";
    lit "show-open-dialog"; lit "read-file" ].

(** Names under which a raw messaging primitive, a module or process
    primitive or a code execution primitive would be published. *)
Definition forbidden_names : list jsstring :=
  [ lit "ipcRenderer"; lit "invoke"; lit "send"; lit "sendSync"; lit "on";
    lit "once"; lit "off"; lit "removeListener"; lit "require";
    lit "process"; lit "module"; lit "exports"; lit "fs";
    lit "child_process"; lit "eval"; lit "Function" ].

(** A call sent at most one request, and that one on [channel]. *)
Definition only_on {E A : Type} (channel : jsstring)
  (o : Preload.outcome E A) : Prop :=
  Forall (fun req => Preload.env_channel req = channel) (Preload.sent o)
  /\ (length (Preload.sent o) <= 1)%nat.

(** The preload world before any subscription. *)
Definition fresh_renderer : Preload.renderer := Preload.mkRenderer [] ∅.

(** The shape of every state the preload world can be in: an event name is
    kept only while it has listeners, no function is listed twice for one
    event, and every listener is a closure that was created. *)
Definition well_formed (R : Preload.renderer) : Prop :=
  map_Forall
    (fun _ ls =>
       ls <> [] /\ NoDup ls
       /\ Forall (fun l => (l < length (Preload.closures R))%nat) ls)
    (Preload.events R).

(** Two components subscribe, one after the other: the world after both
    calls and the two functions they got back. *)
Definition two_subscribers
  : Preload.renderer * (Preload.renderer -> Preload.renderer)
    * (Preload.renderer -> Preload.renderer) :=
  let '(R1, detach_first) := Preload.onNotification 10%nat fresh_renderer in
  let '(R2, detach_second) := Preload.onNotification 20%nat R1 in
  (R2, detach_first, detach_second).

(** An absolute path of exactly 4096 characters without dots. *)
Definition path_of_4096 : jsstring := lit "/" ++ replicate 4095 97%N.

(** The oversized payload of the documentation: ["a".repeat(10000)] with
    the count 1000. *)
Definition oversized_input : value :=
  Object [(lit "text", Str (replicate (Z.to_nat 10000) 97%N));
          (lit "count", Number (of_Z 1000))].

(** A method that is none of the surface's: it sends whatever it is given
    on the file-read channel, unchecked. *)
Definition raw_invoke : Preload.method :=
  Preload.Async (fun a => Preload.invoke "read-file" [Preload.arg_data a]).

(** ** The handler module of the main process (ipc/handlers) *)

Module Handlers.

(** What these handlers do outside themselves: [console.log(text, data)]. *)
Inductive effect : Type :=
| ConsoleLog (text : jsstring) (data : value).

(** A handler, given [process.env.npm_package_version] (absent or a
    string) and the arguments after [_event]. *)
Definition handler : Type :=
  option jsstring -> list value -> list effect * completion value.

(** [ipcMain.handle(channel, fn)] of Electron: a channel holds one handler,
    registering a second one throws and changes nothing. *)
Definition handle (channel : jsstring) (fn : handler)
  (reg : gmap jsstring handler) : gmap jsstring handler * completion () :=
  match reg !! channel with
  | Some _ =>
      (reg, Throw (mkError (lit "Error")
         (lit "Attempted to register a second handler for '" ++ channel
          ++ lit "'")))
  | None => (<[channel := fn]> reg, Return ())
  end.

(** [ipcMain.removeHandler(channel)] *)
Definition removeHandler (channel : jsstring) (reg : gmap jsstring handler)
  : gmap jsstring handler :=
  delete channel reg.

(** Statements one after the other on the registry; a throw ends the run
    and keeps what was done before it. *)
Definition and_then
  (first second : gmap jsstring handler
                  -> gmap jsstring handler * completion ())
  (reg : gmap jsstring handler) : gmap jsstring handler * completion () :=
  match first reg with
  | (reg', Return _) => second reg'
  | (reg', Throw e) => (reg', Throw e)
  end.

Definition handle_app_ping : handler :=
  fun _ _ => ([], Return (Str (lit "pong"))).

(** [process.env.npm_package_version || '1.0.0'] *)
Definition handle_app_getVersion : handler :=
  fun npm_package_version _ =>
    ([], Return
       (match npm_package_version with
        | Some v => if truthy (Str v) then Str v else Str (lit "1.0.0")
        | None => Str (lit "1.0.0")
        end)).

Definition handle_data_process : handler :=
  fun _ args =>
    let data := Main.arg0 args in
    ([ConsoleLog (lit "Processing data:") data],
     Return (Object [(lit "success", Boolean true); (lit "data", data)])).

Definition registerIPCHandlers
  : gmap jsstring handler -> gmap jsstring handler * completion () :=
  and_then (handle (lit "app:ping") handle_app_ping)
    (and_then (handle (lit "app:getVersion") handle_app_getVersion)
       (handle (lit "data:process") handle_data_process)).

Definition unregisterIPCHandlers (reg : gmap jsstring handler)
  : gmap jsstring handler :=
  removeHandler (lit "data:process")
    (removeHandler (lit "app:getVersion")
       (removeHandler (lit "app:ping") reg)).

(** An [invoke] request arriving at a registry. *)
Definition dispatch (reg : gmap jsstring handler)
  (npm_package_version : option jsstring) (channel : jsstring)
  (args : list value) : list effect * completion value :=
  match reg !! channel with
  | Some h => h npm_package_version args
  | None =>
      ([], Throw (mkError (lit "Error")
         (lit "No handler registered for '" ++ channel ++ lit "'")))
  end.

End Handlers.

(** ** The renderer's hooks (useIPC, useAppVersion) *)

Module Hooks.

(** [electronAPI.name] on the published object. *)
Fixpoint lookup_method (name : jsstring)
  (api : list (jsstring * Preload.method)) : option Preload.method :=
  match api with
  | [] => None
  | (k, m) :: rest =>
      if decide (name = k) then Some m else lookup_method name rest
  end.

(** What a hook passes to a function: data or a callback of its caller. *)
Inductive argument : Type :=
| Data (v : value)
| Function (cb : Preload.callback).

Section UseIPC.

(** [window.electronAPI], absent when no preload script published it. *)
Variable electronAPI : option (list (jsstring * Preload.method)).

(** How calling a function found on the published object goes. *)
Variable apply_method : Preload.method -> list argument -> completion value.

(** [electronAPI?.name] *)
Definition member (name : string) : option Preload.method :=
  api ← electronAPI; lookup_method (lit name) api.

(** The three callbacks of [useIPC]: what is written with [console.warn]
    and the completion. *)
Definition invoke (channel : jsstring) (args : list value)
  : list jsstring * completion value :=
  match member "invoke" with
  | None => ([lit "IPC not available"], Return Null)
  | Some m => ([], apply_method m (Data (Str channel) :: map Data args))
  end.

Definition on (channel : jsstring) (callback : Preload.callback)
  : list jsstring * completion value :=
  match member "on" with
  | None => ([lit "IPC not available"], Return Undefined)
  | Some m =>
      ([], match apply_method m [Data (Str channel); Function callback] with
           | Return _ => Return Undefined
           | Throw e => Throw e
           end)
  end.

Definition off (channel : jsstring) (callback : Preload.callback)
  : list jsstring * completion value :=
  match member "off" with
  | None => ([lit "IPC not available"], Return Undefined)
  | Some m =>
      ([], match apply_method m [Data (Str channel); Function callback] with
           | Return _ => Return Undefined
           | Throw e => Throw e
           end)
  end.

(** [useAppVersion]: the [version] state once the effect's promise has
    settled, starting from [null]. *)
Definition useAppVersion : value :=
  match invoke (lit "app:getVersion") [] with
  | (_, Return v) => if bool_decide (typeof v = TyString) then v else Null
  | (_, Throw _) => Null
  end.

End UseIPC.

End Hooks.

(** ** Formatting a file size (renderer/utils/format) *)

Module Format.

Definition units : list jsstring :=
  [lit "B"; lit "KB"; lit "MB"; lit "GB"; lit "TB"].

(** [size / 1024] *)
Definition div1024 (size : number) : number :=
  match size with
  | Finite q => Finite (q / 1024)
  | other => other
  end.

(** The [while] loop, with a bound on its iterations. *)
Fixpoint loop (fuel : nat) (size : number) (unitIndex : nat) : number * nat :=
  match fuel with
  | O => (size, unitIndex)
  | S fuel' =>
      if ge size (of_Z 1024) && (unitIndex <? length units - 1)%nat
      then loop fuel' (div1024 size) (S unitIndex)
      else (size, unitIndex)
  end.

(** [formatFileSize(bytes)], given [Number.prototype.toFixed]. *)
Definition formatFileSize (toFixed : number -> Z -> jsstring)
  (bytes : number) : jsstring :=
  let '(size, unitIndex) := loop (length units) bytes 0 in
  toFixed size 2 ++ lit " "
  ++ default (lit "undefined") (units !! unitIndex).

End Format.

(** ** Navigation and window policies of the main process *)

Module Window.

Definition VITE_DEV_SERVER_URL : jsstring := lit "http://localhost:5173".

Inductive effect : Type :=
| PreventDefault
| ConsoleWarn (text : jsstring)
| OpenExternal (url : jsstring).

Inductive action : Type := Deny | Allow.

Section Policies.

(** [isDev], fixed when the process starts. *)
Variable isDev : bool.

(** [new URL(url).origin]; the constructor throws on what is no URL. *)
Variable origin : jsstring -> completion jsstring.

(** [mainWindow.webContents.on('will-navigate', ...)] *)
Definition main_will_navigate (navigationUrl : jsstring)
  : list effect * completion () :=
  match origin navigationUrl with
  | Throw e => ([], Throw e)
  | Return parsed =>
      if isDev && bool_decide (parsed = VITE_DEV_SERVER_URL)
      then ([], Return ())
      else
        ([PreventDefault;
          ConsoleWarn (lit "Blocked navigation to: " ++ navigationUrl)],
         Return ())
  end.

(** [contents.on('will-navigate', ...)], set for every web contents. *)
Definition contents_will_navigate (navigationUrl : jsstring)
  : list effect * completion () :=
  match origin navigationUrl with
  | Throw e => ([], Throw e)
  | Return parsed =>
      if isDev && negb (bool_decide (parsed = VITE_DEV_SERVER_URL))
      then ([PreventDefault], Return ())
      else if negb isDev && negb (startsWith navigationUrl (lit "file://"))
      then ([PreventDefault], Return ())
      else ([], Return ())
  end.

End Policies.

(** [mainWindow.webContents.setWindowOpenHandler(({ url }) => ...)] *)
Definition window_open_handler (url : jsstring) : list effect * action :=
  (if startsWith url (lit "https://") then [OpenExternal url] else [], Deny).

End Window.

(** ** More vocabulary *)

(** A [properties] value of the file dialog: an array of the three known
    property names. *)
Definition sane_properties (v : value) : Prop :=
  exists items, v = Array items
    /\ Forall (fun x => exists s, x = Str s /\ s ∈ Preload.validProperties)
         items.

(** A file filter as the dialog expects it: an object with a string [name]
    and an array of strings as [extensions]. *)
Definition sane_filter (v : value) : Prop :=
  exists fields name exts, v = Object fields
    /\ lookup_field (lit "name") fields = Some (Str name)
    /\ lookup_field (lit "extensions") fields = Some (Array exts)
    /\ Forall (fun x => exists s, x = Str s) exts.

Definition sane_filters (v : value) : Prop :=
  exists items, v = Array items /\ Forall sane_filter items.

(** The three messages the process-data handler fails with. *)
Definition process_data_errors : list error :=
  [ Error "Invalid data format"; Error "Invalid text field";
    Error "Invalid count field" ].

(** The options the application's file button passes to [showOpenDialog]. *)
Definition app_dialog_options : value :=
  Object
    [ (lit "properties", Array [Str (lit "openFile")]);
      (lit "filters",
       Array
         [ Object [(lit "name", Str (lit "Text Files"));
                   (lit "extensions", Array [Str (lit "txt"); Str (lit "md")])];
           Object [(lit "name", Str (lit "All Files"));
                   (lit "extensions", Array [Str (lit "*")])] ]) ].

(** ** Facts about strings and numbers *)

Section StringFacts.

Lemma startsWith_prefix (needle s : jsstring) :
  startsWith s needle = true <-> exists post, s = needle ++ post.
Proof.
  revert s; induction needle as [|a needle IH]; intros s; simpl.
  - split; [intros _; by exists s | done].
  - destruct s as [|b s].
    + split; [done | intros [post H]; discriminate].
    + rewrite andb_true_iff, N.eqb_eq, IH. split.
      * intros [-> [post ->]]. by exists post.
      * intros [post H]. injection H as -> ->. split; [done | by exists post].
Qed.

Lemma includes_contains (s needle : jsstring) :
  includes s needle = true <-> contains s needle.
Proof.
  unfold contains. induction s as [|a s IH]; simpl.
  - rewrite orb_false_r, startsWith_prefix. split.
    + intros [post H]. by exists [], post.
    + intros (pre & post & H). symmetry in H.
      apply app_eq_nil in H as [-> H]. exists post. by rewrite H.
  - rewrite orb_true_iff, startsWith_prefix, IH. split.
    + intros [[post H] | (pre & post & H)].
      * by exists [], post.
      * exists (a :: pre), post. by rewrite H.
    + intros (pre & post & H). destruct pre as [|b pre]; simpl in H.
      * left. by exists post.
      * right. injection H as -> ->. by exists pre, post.
Qed.

Lemma includes_not_contains (s needle : jsstring) :
  includes s needle = false <-> ~ contains s needle.
Proof.
  rewrite <- includes_contains. by destruct (includes s needle).
Qed.

End StringFacts.

Section NumberFacts.

Lemma is_int_num (q : Q) (z : Z) :
  (q == inject_Z z)%Q <-> Qnum q = z * Zpos (Qden q).
Proof. unfold Qeq, inject_Z; simpl. lia. Qed.

Lemma isInteger_is_int (n : number) :
  isInteger n = true <-> exists z, is_int n z.
Proof.
  destruct n as [| neg | q]; simpl.
  - split; [done | by intros [z []]].
  - split; [done | by intros [z []]].
  - rewrite Z.eqb_eq. split.
    + intros H. exists (Qnum q / Zpos (Qden q)).
      apply is_int_num. apply Z.div_exact in H; lia.
    + intros [z H%is_int_num]. rewrite H. apply Z.mod_mul. lia.
Qed.

Lemma is_int_le_l (n : number) (z a : Z) :
  is_int n z -> le (of_Z a) n = (a <=? z).
Proof.
  destruct n as [| neg | q]; simpl; [done.. |]. intros H%is_int_num.
  apply eq_iff_eq_true. rewrite Qle_bool_iff, Z.leb_le.
  unfold Qle; simpl. rewrite H. nia.
Qed.

Lemma is_int_le_r (n : number) (z a : Z) :
  is_int n z -> le n (of_Z a) = (z <=? a).
Proof.
  destruct n as [| neg | q]; simpl; [done.. |]. intros H%is_int_num.
  apply eq_iff_eq_true. rewrite Qle_bool_iff, Z.leb_le.
  unfold Qle; simpl. rewrite H. nia.
Qed.

Lemma is_int_quot (q : Q) (z : Z) :
  is_int (Finite q) z -> Z.quot (Qnum q) (Zpos (Qden q)) = z.
Proof.
  simpl. intros H%is_int_num. rewrite H. apply Z.quot_mul. lia.
Qed.

End NumberFacts.

(** One step of a handler or method: evaluate the control flow, leave the
    tests on strings and numbers as they are. *)
Ltac step :=
  cbn -[Js.lt Js.gt Js.le Js.ge isInteger repeat lit includes lookup_field
        Z.gtb Z.ltb Z.leb Z.of_nat Main.isAbsolute];
  rewrite ?bool_decide_true by done;
  cbn [negb orb andb].

(** ** The bounded text transform *)

Section ProcessData.

Import Preload Main.

(** What the Bridge Layer accepts as a count: exactly the finite numbers
    between 0 and 100, whole or not. *)
Lemma isValidNumber_0_100 (v : value) :
  isValidNumber v (of_Z 0) (of_Z 100) = true
  <-> exists q, v = Number (Finite q) /\ (0 <= q <= 100)%Q.
Proof.
  split.
  - destruct v as [| | |n| | |]; simpl; try done.
    destruct n as [| neg | q]; simpl; try done.
    unfold ge; simpl. rewrite andb_true_iff, !Qle_bool_iff.
    intros [H1 H2]. by exists q.
  - intros (q & -> & H1 & H2). simpl. unfold ge; simpl.
    apply andb_true_iff. by rewrite !Qle_bool_iff.
Qed.

(** What the Host accepts as a count: exactly the integers 0..100. *)
Lemma host_count_check (n : number) :
  Js.lt n (of_Z 0) || gt n (of_Z 100) || negb (isInteger n) = false
  <-> valid_count (Number n).
Proof.
  split.
  - rewrite !orb_false_iff, negb_false_iff.
    intros [[H0 H100] [z Hz]%isInteger_is_int].
    exists n, z. split; [done | split; [done |]].
    unfold gt, Js.lt in *.
    rewrite (is_int_le_l _ _ _ Hz) in H0.
    rewrite (is_int_le_r _ _ _ Hz) in H100.
    destruct n; simpl in *; [done.. |].
    apply negb_false_iff in H0, H100. lia.
  - intros (n' & z & [= <-] & Hz & Hr).
    assert (isInteger n = true) as -> by (apply isInteger_is_int; eauto).
    unfold gt, Js.lt.
    rewrite (is_int_le_l _ _ _ Hz), (is_int_le_r _ _ _ Hz).
    destruct n; simpl in *; [done.. |].
    replace (0 <=? z) with true by lia. replace (z <=? 100) with true by lia.
    done.
Qed.

(** C4: on a payload whose text has at most 1000 characters and whose count
    is an integer of 0..100, the process-data handler succeeds, without any
    effect, with the text repeated count times and the clock reading as
    timestamp. *)
Theorem process_data_repeats_text (sys : system)
  (fields : list (jsstring * value)) (text : jsstring) (n : number) (z : Z) :
  lookup_field (lit "text") fields = Some (Str text) ->
  lookup_field (lit "count") fields = Some (Number n) ->
  (length text <= 1000)%nat ->
  is_int n z -> 0 <= z <= 100 ->
  handle_process_data sys [Object fields] =
    ([], Return (Object
      [ (lit "processed", Str (copies (Z.to_nat z) text));
        (lit "timestamp", Number (of_Z (date_now sys))) ])).
Proof.
  intros Htext Hcount Hlen Hint Hrange.
  unfold handle_process_data, arg0, get_opt. step.
  rewrite Htext, Hcount. step.
  replace (Z.of_nat (length text) >? 1000) with false by lia.
  assert (valid_count (Number n)) as Hv by (by exists n, z).
  apply host_count_check in Hv. rewrite Hv.
  destruct n as [| neg | q]; [done.. |].
  unfold repeat. rewrite (is_int_quot _ _ Hint).
  by replace (z <? 0) with false by lia.
Qed.

(** The scenario of the documentation: [{text: "Hello", count: 3}]. *)
Lemma process_data_hello :
  handle_process_data sample_system
    [Object [(lit "text", Str (lit "Hello")); (lit "count", Number (of_Z 3))]]
  = ([], Return (Object
      [ (lit "processed", Str (lit "HelloHelloHello"));
        (lit "timestamp", Number (of_Z 1700000000000)) ])).
Proof.
  apply (process_data_repeats_text sample_system _ (lit "Hello") (of_Z 3) 3).
  - reflexivity.
  - reflexivity.
  - simpl; lia.
  - reflexivity.
  - lia.
Defined.

(** The Host turns down every count that is not an integer of 0..100. *)
Lemma process_data_rejects_invalid_count (sys : system)
  (fields : list (jsstring * value)) (text : jsstring) :
  lookup_field (lit "text") fields = Some (Str text) ->
  (length text <= 1000)%nat ->
  ~ valid_count (get_opt (Object fields) "count") ->
  handle_process_data sys [Object fields]
  = ([], Throw (Error "Invalid count field")).
Proof.
  intros Htext Hlen Hbad.
  unfold handle_process_data, arg0, get_opt in *. step.
  rewrite Htext. step.
  replace (Z.of_nat (length text) >? 1000) with false by lia.
  destruct (default Undefined (lookup_field (lit "count") fields))
    as [| | |n| | |]; try done.
  destruct (Js.lt n (of_Z 0) || gt n (of_Z 100) || negb (isInteger n))
    eqn:Hc; [done |].
  by apply host_count_check in Hc.
Qed.

(** C6: a text of more than 1000 characters makes [processData] throw its
    validation error before [ipcRenderer.invoke] is reached: whatever the
    Host, no request is sent and no Host effect happens. *)
Theorem processData_rejects_long_text (data : value) (text : jsstring) :
  get data "text" = Return (Str text) ->
  (1000 < length text)%nat ->
  processData data
  = Fail (Error
      "Invalid text field: must be a string with max 1000 characters")
  /\ forall (E : Type) (host : envelope -> list E * completion value),
       run host (processData data)
       = mkOutcome [] []
           (Throw (Error
              "Invalid text field: must be a string with max 1000 characters")).
Proof.
  intros Hget Hlen.
  assert (processData data = Fail (Error
    "Invalid text field: must be a string with max 1000 characters")) as ->.
  { unfold processData, mbind, bridge_bind. rewrite Hget. step.
    by replace (Z.of_nat (length text) <=? 1000) with false by lia. }
  done.
Qed.

(** The oversized payload never leaves the renderer process. *)
Lemma processData_rejects_oversized :
  processData oversized_input
  = Fail (Error
      "Invalid text field: must be a string with max 1000 characters")
  /\ forall (E : Type) (host : envelope -> list E * completion value),
       run host (processData oversized_input)
       = mkOutcome [] []
           (Throw (Error
              "Invalid text field: must be a string with max 1000 characters")).
Proof.
  apply (processData_rejects_long_text oversized_input (replicate (Z.to_nat 10000) 97%N)).
  - reflexivity.
  - rewrite length_replicate. lia.
Defined.

(** C2 at the count 1.5: it is not an integer of 0..100, yet the Bridge
    Layer lets it through; the request is sent, and only the Host turns it
    down. *)
Theorem processData_forwards_fractional_count (sys : system) :
  ~ valid_count (Number (Finite (3 # 2)))
  /\ processData fractional_count_input
     = invoke "process-data" [fractional_count_input]
  /\ sent (call sys (processData fractional_count_input))
     = [mkEnvelope (lit "process-data") [fractional_count_input]]
  /\ settled (call sys (processData fractional_count_input))
     = Throw (Error "Invalid count field").
Proof.
  split; [| by vm_compute].
  intros H%host_count_check. by vm_compute in H.
Qed.

End ProcessData.

(** ** The bounded file read *)

Section ReadFile.

Import Preload Main.

(** *** The Bridge Layer's [readFile] *)

Lemma readFile_dotdot (p : jsstring) :
  includes p (lit "..") = true ->
  readFile (Str p) = Fail (Error "Invalid file path")
  \/ readFile (Str p) = Fail (Error "Path traversal detected").
Proof.
  intros Hdots. unfold readFile.
  destruct (isValidPath (Str p)); step; [right | by left].
  by rewrite Hdots.
Qed.

Lemma run_Fail {E A : Type} (host : envelope -> list E * completion value)
  (e : error) :
  run (A:=A) host (Fail e) = mkOutcome [] [] (Throw e).
Proof. reflexivity. Qed.

Lemma run_invoke {E : Type} (host : envelope -> list E * completion value)
  (channel : string) (args : list value) :
  sent (run host (invoke channel args)) = [mkEnvelope (lit channel) args].
Proof.
  unfold invoke; simpl. destruct (host _) as [eff [v | e]]; reflexivity.
Qed.

(** *** The Host's read-file handler *)

Lemma read_file_dotdot (sys : system) (p : jsstring) :
  includes p (lit "..") = true ->
  handle_read_file sys [Str p] = ([], Throw (Error "Invalid file path")).
Proof. intros Hdots. unfold handle_read_file. step. by rewrite Hdots. Qed.

(** The handler on a path that passed its check, one case per way the
    privileged operations can go. *)
Lemma read_file_checked (sys : system) (p : jsstring) :
  includes p (lit "..") = false ->
  isAbsolute (sys_platform sys) p = true ->
  handle_read_file sys [Str p] =
    let logged e := ConsoleError (lit "Error reading file:") e in
    match fs_stat sys p with
    | Throw e => ([FsStat p; logged e], Throw e)
    | Return st =>
        if negb (st_isFile st)
        then ([FsStat p; logged (Error "Path is not a file")],
              Throw (Error "Path is not a file"))
        else if st_size st >? MAX_FILE_SIZE
        then ([FsStat p; logged (Error "File too large")],
              Throw (Error "File too large"))
        else
          match fs_readFile sys p with
          | Return content =>
              ([FsStat p; FsReadFile p (lit "utf-8")], Return (Str content))
          | Throw e =>
              ([FsStat p; FsReadFile p (lit "utf-8"); logged e], Throw e)
          end
    end.
Proof.
  intros Hdots Habs. unfold handle_read_file. step.
  rewrite Hdots, Habs. step.
  unfold mbind, host_bind, bind, try_catch, perform, throw, ret.
  destruct (fs_stat sys p) as [st | e]; [| done].
  destruct (st_isFile st); [| done]. step.
  destruct (st_size st >? MAX_FILE_SIZE); [done |].
  by destruct (fs_readFile sys p).
Qed.

(** No run of the handler reaches the filesystem unless its argument is a
    string that went through the traversal check. *)
Lemma read_file_checks_before_filesystem (sys : system) (args : list value) :
  existsb is_fs_access (handle_read_file sys args).1 = true ->
  exists p, arg0 args = Str p
    /\ ~ contains p (lit "..")
    /\ isAbsolute (sys_platform sys) p = true.
Proof.
  unfold handle_read_file.
  destruct (arg0 args) as [| | | |p|items|]; try done.
  - destruct (includes p (lit "..")) eqn:Hdots; [done |].
    destruct (isAbsolute (sys_platform sys) p) eqn:Habs; [| done].
    intros _. exists p. by rewrite <- includes_not_contains.
  - by destruct (array_includes items (lit "..")).
Qed.

(** C5: a path with [..] in it fails before any filesystem access: the
    Bridge Layer's [readFile] throws without sending a request, whatever the
    Host, and the Host handler throws with an empty trace, before [stat]
    and [readFile]. *)
Theorem traversal_fails_before_filesystem (p : jsstring) :
  contains p (lit "..") ->
  (readFile (Str p) = Fail (Error "Invalid file path")
   \/ readFile (Str p) = Fail (Error "Path traversal detected"))
  /\ (forall (E : Type) (host : envelope -> list E * completion value),
        sent (run host (readFile (Str p))) = []
        /\ host_effects (run host (readFile (Str p))) = [])
  /\ (forall sys : system,
        handle_read_file sys [Str p]
        = ([], Throw (Error "Invalid file path"))).
Proof.
  intros Hdots%includes_contains. split; [| split].
  - by apply readFile_dotdot.
  - intros E host. by destruct (readFile_dotdot p Hdots) as [-> | ->].
  - intros sys. by apply read_file_dotdot.
Qed.

(** The attack of the documentation: [../../../etc/passwd]. *)
Lemma traversal_etc_passwd :
  contains (lit "../../../etc/passwd") (lit "..")
  /\ readFile (Str (lit "../../../etc/passwd"))
     = Fail (Error "Path traversal detected")
  /\ handle_read_file sample_system [Str (lit "../../../etc/passwd")]
     = ([], Throw (Error "Invalid file path")).
Proof.
  assert (contains (lit "../../../etc/passwd") (lit "..")) as H
    by (by apply includes_contains).
  split; [exact H |].
  destruct (traversal_fails_before_filesystem _ H) as (_ & _ & Hhost).
  split; [reflexivity | apply Hhost].
Defined.

(** C10: every path with two consecutive dots anywhere is turned down by
    both layers, so no such file is ever read through the surface; this
    includes [/tmp/a..b], which is absolute and has no [..] segment. *)
Theorem consecutive_dots_rejected :
  (forall (sys : system) (pre post : jsstring),
     let p := pre ++ lit ".." ++ post in
     (exists e, readFile (Str p) = Fail e)
     /\ (exists e, call sys (readFile (Str p)) = mkOutcome [] [] (Throw e))
     /\ (exists e, handle_read_file sys [Str p] = ([], Throw e)))
  /\ isAbsolute Posix (lit "/tmp/a..b") = true
  /\ (lit ".." ∉ segments (lit "/tmp/a..b"))
  /\ readFile (Str (lit "/tmp/a..b")) = Fail (Error "Path traversal detected")
  /\ (forall sys : system,
        handle_read_file sys [Str (lit "/tmp/a..b")]
        = ([], Throw (Error "Invalid file path"))).
Proof.
  split; [| split; [| split; [| split]]].
  - intros sys pre post p.
    assert (includes p (lit "..") = true) as Hdots
      by (apply includes_contains; by exists pre, post).
    split; [| split].
    + destruct (readFile_dotdot p Hdots) as [-> | ->]; eauto.
    + unfold call. destruct (readFile_dotdot p Hdots) as [-> | ->]; eauto.
    + rewrite (read_file_dotdot sys p Hdots); eauto.
  - reflexivity.
  - apply (bool_decide_unpack _). by vm_compute.
  - reflexivity.
  - intros sys. by apply read_file_dotdot.
Qed.

(** *** What the declared payload constraint admits *)

Lemma isAbsolute_nonempty (pf : platform) (p : jsstring) :
  isAbsolute pf p = true -> (0 < length p)%nat.
Proof. destruct pf, p; simpl; (done || lia). Qed.

(** C7, as amended: an absolute path without [..], without a null character
    and of at most 4095 characters passes the Bridge Layer's validation and
    is forwarded, unchanged, on the read-file channel. *)
Theorem readFile_forwards_valid_path (pf : platform) (p : jsstring) :
  isAbsolute pf p = true ->
  ~ contains p (lit "..") ->
  ~ contains p NUL ->
  (length p <= 4095)%nat ->
  readFile (Str p) = invoke "read-file" [Str p]
  /\ forall (E : Type) (host : envelope -> list E * completion value),
       sent (run host (readFile (Str p)))
       = [mkEnvelope (lit "read-file") [Str p]].
Proof.
  intros Habs%isAbsolute_nonempty Hdots%includes_not_contains
         Hnul%includes_not_contains Hlen.
  assert (readFile (Str p) = invoke "read-file" [Str p]) as ->.
  { unfold readFile, isValidPath. rewrite Hnul, Hdots.
    replace (0 <? Z.of_nat (length p)) with true by lia.
    by replace (Z.of_nat (length p) <? 4096) with true by lia. }
  split; [done |]. intros E host. apply run_invoke.
Qed.

Lemma readFile_forwards_notes :
  readFile (Str (lit "/home/user/notes.txt"))
  = invoke "read-file" [Str (lit "/home/user/notes.txt")]
  /\ forall (E : Type) (host : envelope -> list E * completion value),
       sent (run host (readFile (Str (lit "/home/user/notes.txt"))))
       = [mkEnvelope (lit "read-file") [Str (lit "/home/user/notes.txt")]].
Proof.
  apply (readFile_forwards_valid_path Posix (lit "/home/user/notes.txt")).
  - reflexivity.
  - apply includes_not_contains. reflexivity.
  - apply includes_not_contains. reflexivity.
  - simpl. lia.
Defined.

(** C7, as stated, fails at a path of exactly 4096 characters: it is
    absolute, has no [..] and is within the declared length, and [readFile]
    throws instead of forwarding it. *)
Lemma readFile_rejects_4096_characters :
  (forall pf, isAbsolute pf path_of_4096 = true)
  /\ ~ contains path_of_4096 (lit "..")
  /\ length path_of_4096 = 4096%nat
  /\ readFile (Str path_of_4096) = Fail (Error "Invalid file path")
  /\ readFile (Str path_of_4096) <> invoke "read-file" [Str path_of_4096]
  /\ forall (E : Type) (host : envelope -> list E * completion value),
       sent (run host (readFile (Str path_of_4096))) = [].
Proof.
  assert (readFile (Str path_of_4096) = Fail (Error "Invalid file path"))
    as Hfail by (by vm_compute).
  split; [by intros [] |].
  split; [apply includes_not_contains; by vm_compute |].
  split; [by vm_compute |].
  split; [exact Hfail |].
  rewrite Hfail. split; [done |]. by intros E host.
Qed.

(** *** Failures of the privileged operations *)

(** Whatever [stat] throws is what the handler throws. *)
Lemma read_file_rethrows_stat_error (sys : system) (p : jsstring) (e : error) :
  ~ contains p (lit "..") ->
  isAbsolute (sys_platform sys) p = true ->
  fs_stat sys p = Throw e ->
  handle_read_file sys [Str p]
  = ([FsStat p; ConsoleError (lit "Error reading file:") e], Throw e).
Proof.
  intros Hdots%includes_not_contains Habs Hstat.
  rewrite (read_file_checked sys p Hdots Habs). by rewrite Hstat.
Qed.

(** Whatever [readFile] throws is what the handler throws. *)
Lemma read_file_rethrows_read_error (sys : system) (p : jsstring)
  (st : stats) (e : error) :
  ~ contains p (lit "..") ->
  isAbsolute (sys_platform sys) p = true ->
  fs_stat sys p = Return st -> st_isFile st = true ->
  st_size st <= MAX_FILE_SIZE ->
  fs_readFile sys p = Throw e ->
  handle_read_file sys [Str p]
  = ([FsStat p; FsReadFile p (lit "utf-8");
      ConsoleError (lit "Error reading file:") e], Throw e).
Proof.
  intros Hdots%includes_not_contains Habs Hstat Hfile Hsize Hread.
  rewrite (read_file_checked sys p Hdots Habs). rewrite Hstat, Hfile, Hread.
  cbn [negb]. by replace (st_size st >? MAX_FILE_SIZE) with false by lia.
Qed.

(** C1 at a missing file: the handler logs the error of [stat] and throws
    that very error, whose message carries the system's wording and the
    path, to the caller. *)
Theorem read_file_forwards_system_error :
  let p := lit "/nonexistent.txt" in
  handle_read_file sample_system [Str p]
  = ([FsStat p; ConsoleError (lit "Error reading file:") (ENOENT "stat" p)],
     Throw (ENOENT "stat" p))
  /\ settled (call sample_system (readFile (Str p))) = Throw (ENOENT "stat" p)
  /\ err_message (ENOENT "stat" p)
     = lit "ENOENT: no such file or directory, stat '/nonexistent.txt'"
  /\ contains (err_message (ENOENT "stat" p)) p.
Proof.
  intros p. split; [| split; [| split]].
  - apply read_file_rethrows_stat_error.
    + apply includes_not_contains. reflexivity.
    + reflexivity.
    + reflexivity.
  - by vm_compute.
  - reflexivity.
  - apply includes_contains. reflexivity.
Qed.

(** *** The size ceiling and the regular-file test *)

(** C8: on a path that passed the handler's check, contents are returned
    only for a regular file of at most 10 MiB, and then they are what
    [readFile] gave; a directory or a larger file makes the call fail
    without [readFile] being called. *)
Theorem read_file_only_regular_bounded (sys : system) (p : jsstring) :
  ~ contains p (lit "..") ->
  isAbsolute (sys_platform sys) p = true ->
  (forall tr c, handle_read_file sys [Str p] = (tr, Return c) ->
     exists st content,
       fs_stat sys p = Return st /\ st_isFile st = true
       /\ st_size st <= 10 * 1024 * 1024
       /\ fs_readFile sys p = Return content /\ c = Str content)
  /\ (forall st, fs_stat sys p = Return st ->
        st_isFile st = false \/ st_size st > 10 * 1024 * 1024 ->
        exists e,
          handle_read_file sys [Str p]
          = ([FsStat p; ConsoleError (lit "Error reading file:") e], Throw e))
  /\ (forall st content, fs_stat sys p = Return st ->
        st_isFile st = true -> st_size st <= 10 * 1024 * 1024 ->
        fs_readFile sys p = Return content ->
        handle_read_file sys [Str p]
        = ([FsStat p; FsReadFile p (lit "utf-8")], Return (Str content))).
Proof.
  intros Hdots%includes_not_contains Habs.
  rewrite (read_file_checked sys p Hdots Habs). cbv zeta.
  change MAX_FILE_SIZE with (10 * 1024 * 1024).
  split; [| split].
  - intros tr c. destruct (fs_stat sys p) as [st | e]; [| done].
    destruct (st_isFile st) eqn:Hfile; [| done]. cbn [negb].
    destruct (st_size st >? 10 * 1024 * 1024) eqn:Hsize; [done |].
    destruct (fs_readFile sys p) as [content | e]; [| done].
    intros [= <- <-]. exists st, content. repeat split; try done. lia.
  - intros st -> [-> | Hbig]; cbn [negb]; [eauto |].
    destruct (st_isFile st); cbn [negb]; [| eauto].
    replace (st_size st >? 10 * 1024 * 1024) with true by lia. eauto.
  - intros st content -> -> Hsize ->. cbn [negb].
    by replace (st_size st >? 10 * 1024 * 1024) with false by lia.
Qed.

(** On the sample system: the text file is returned, the directory and the
    file of 10 MiB + 1 bytes are not. *)
Lemma read_file_sample :
  handle_read_file sample_system [Str (lit "/home/user/notes.txt")]
  = ([FsStat (lit "/home/user/notes.txt");
      FsReadFile (lit "/home/user/notes.txt") (lit "utf-8")],
     Return (Str (lit "hello world")))
  /\ (exists e, handle_read_file sample_system [Str (lit "/var/big.bin")]
        = ([FsStat (lit "/var/big.bin");
            ConsoleError (lit "Error reading file:") e], Throw e)).
Proof.
  split.
  - apply (read_file_only_regular_bounded sample_system
             (lit "/home/user/notes.txt"))
      with (st := mkStats true 12).
    + apply includes_not_contains. reflexivity.
    + reflexivity.
    + reflexivity.
    + reflexivity.
    + simpl. lia.
    + reflexivity.
  - apply (read_file_only_regular_bounded sample_system (lit "/var/big.bin"))
      with (st := mkStats true (10 * 1024 * 1024 + 1)).
    + apply includes_not_contains. reflexivity.
    + reflexivity.
    + reflexivity.
    + right. simpl. lia.
Defined.

End ReadFile.

(** ** Notification subscriptions *)

Section Subscriptions.

Import Preload.

Implicit Types (l : listener) (ls : list listener) (R : renderer).

Lemma remove_last_None l ls : remove_last l ls = None <-> l ∉ ls.
Proof.
  induction ls as [|l' ls IH]; simpl.
  - split; [intros _; apply not_elem_of_nil | done].
  - rewrite not_elem_of_cons, <- IH.
    destruct (remove_last l ls); [by split; [| intros [_ ?]] |].
    destruct (decide (l' = l)) as [-> | Hne].
    + by split; [| intros [? _]].
    + by split; [intros _; split; [congruence |] |].
Qed.

Lemma filter_other_id l ls : l ∉ ls -> filter (fun x => x <> l) ls = ls.
Proof.
  intros Hl. induction ls as [|l' ls IH]; [done |].
  apply not_elem_of_cons in Hl as [Hne Hl].
  rewrite filter_cons_True by done. by rewrite IH.
Qed.

(** Where no function is listed twice, taking out the last entry that is
    [l] leaves exactly the other entries. *)
Lemma remove_last_NoDup l ls ls' :
  NoDup ls -> remove_last l ls = Some ls' ->
  ls' = filter (fun x => x <> l) ls.
Proof.
  revert ls'. induction ls as [|l' ls IH]; intros ls' Hnd; simpl; [done |].
  apply NoDup_cons in Hnd as [Hl' Hnd].
  destruct (remove_last l ls) as [rest' |] eqn:Hrem.
  - intros [= <-]. rewrite (IH rest' Hnd eq_refl).
    assert (l' <> l) as Hne.
    { intros ->. by apply (remove_last_None l ls) in Hl'; rewrite Hl' in Hrem. }
    by rewrite filter_cons_True by done.
  - apply remove_last_None in Hrem.
    destruct (decide (l' = l)) as [-> |]; [| done]. intros [= <-].
    rewrite filter_cons_False by naive_solver. by rewrite filter_other_id.
Qed.

Lemma unsubscribe_absent l R :
  l ∉ listeners (lit "notification") R -> unsubscribe l R = R.
Proof.
  unfold unsubscribe, removeListener, listeners. destruct R as [cs E]; simpl.
  destruct (E !! lit "notification") as [ls |]; simpl; [| done].
  intros Hl%remove_last_None. by rewrite Hl.
Qed.

Lemma unsubscribe_listeners l R :
  well_formed R ->
  listeners (lit "notification") (unsubscribe l R)
  = filter (fun x => x <> l) (listeners (lit "notification") R).
Proof.
  intros Hwf. unfold unsubscribe, removeListener, listeners; simpl.
  destruct (events R !! lit "notification") as [ls |] eqn:Hls; simpl;
    [| by rewrite Hls].
  destruct (Hwf _ _ Hls) as (_ & Hnd & _).
  destruct (remove_last l ls) as [ls' |] eqn:Hrem.
  - rewrite <- (remove_last_NoDup l ls ls' Hnd Hrem).
    destruct ls'; [by rewrite lookup_delete_eq | by rewrite lookup_insert_eq].
  - rewrite Hls; simpl. apply remove_last_None in Hrem.
    by rewrite filter_other_id.
Qed.

Lemma unsubscribe_other_events l R (channel : jsstring) :
  channel <> lit "notification" ->
  events (unsubscribe l R) !! channel = events R !! channel.
Proof.
  intros Hne. unfold unsubscribe, removeListener; simpl.
  destruct (events R !! lit "notification") as [ls |]; [| done].
  destruct (remove_last l ls) as [[| x ls'] |]; [| | done].
  - by rewrite lookup_delete_ne.
  - by rewrite lookup_insert_ne.
Qed.

Lemma unsubscribe_well_formed l R :
  well_formed R -> well_formed (unsubscribe l R).
Proof.
  intros Hwf. unfold well_formed, unsubscribe, removeListener; simpl.
  destruct (events R !! lit "notification") as [ls |] eqn:Hls; [| done].
  destruct (remove_last l ls) as [ls' |] eqn:Hrem; [| done].
  destruct (Hwf _ _ Hls) as (_ & Hnd & Hin).
  pose proof (remove_last_NoDup l ls ls' Hnd Hrem) as Hfil.
  destruct ls' as [| x ls'].
  - by apply map_Forall_delete.
  - apply map_Forall_insert_2; [| done]. rewrite Hfil.
    split; [by rewrite <- Hfil |].
    split; [by apply NoDup_filter |].
    apply Forall_forall. intros y [_ Hy]%list_elem_of_filter.
    rewrite Forall_forall in Hin. by apply Hin.
Qed.

Lemma onNotification_well_formed (cb : callback) R :
  well_formed R -> well_formed (onNotification cb R).1.
Proof.
  intros Hwf. unfold well_formed, onNotification, on; simpl.
  rewrite length_app; simpl.
  apply map_Forall_insert_2.
  - split; [by destruct (default [] _) |].
    destruct (events R !! lit "notification") as [ls |] eqn:Hls; simpl.
    + destruct (Hwf _ _ Hls) as (_ & Hnd & Hin). split.
      * apply NoDup_app. split; [done |]. split; [| apply NoDup_singleton].
        intros x Hx ->%list_elem_of_singleton.
        rewrite Forall_forall in Hin. specialize (Hin _ Hx). lia.
      * apply Forall_app. split; [| apply Forall_singleton; lia].
        eapply Forall_impl; [exact Hin |]. simpl. lia.
    + split; [apply NoDup_singleton | apply Forall_singleton; lia].
  - eapply map_Forall_impl; [exact Hwf |]. simpl.
    intros _ ls (Hne & Hnd & Hin). split; [done |]. split; [done |].
    eapply Forall_impl; [exact Hin |]. simpl. lia.
Qed.

Lemma fresh_renderer_well_formed : well_formed fresh_renderer.
Proof. apply map_Forall_empty. Qed.

(** Detaching right after subscribing gives back the listeners there were
    before. *)
Lemma unsubscribe_onNotification (cb : callback) R :
  well_formed R ->
  events ((onNotification cb R).2 (onNotification cb R).1) = events R.
Proof.
  intros Hwf. unfold onNotification, unsubscribe, removeListener, on; simpl.
  rewrite lookup_insert_eq.
  set (safe := length (closures R)).
  assert (NoDup (default [] (events R !! lit "notification") ++ [safe])
          /\ events R !! lit "notification" <> Some []) as [Hnd Hne].
  { destruct (events R !! lit "notification") as [ls |] eqn:Hls; simpl.
    - destruct (Hwf _ _ Hls) as (Hne & Hnd & Hin).
      split; [| by intros [= ->]].
      apply NoDup_app. split; [done |]. split; [| apply NoDup_singleton].
      intros x Hx ->%list_elem_of_singleton.
      rewrite Forall_forall in Hin. specialize (Hin _ Hx). unfold safe in Hin.
      lia.
    - split; [apply NoDup_singleton | done]. }
  destruct (remove_last safe _) as [ls' |] eqn:Hrem.
  - apply (remove_last_NoDup _ _ _ Hnd) in Hrem.
    rewrite filter_app, filter_cons_False, filter_nil, app_nil_r in Hrem
      by naive_solver.
    rewrite filter_other_id in Hrem.
    2: { apply NoDup_app in Hnd as (_ & Hfresh & _). intros Hin.
         apply (Hfresh _ Hin). by apply list_elem_of_singleton. }
    subst ls'.
    destruct (events R !! lit "notification") as [[| x ls] |] eqn:Hls;
      simpl; [done | |].
    + rewrite insert_insert_eq. by apply insert_id.
    + rewrite delete_insert_eq. by apply delete_id.
  - apply remove_last_None in Hrem. exfalso. apply Hrem.
    apply elem_of_app. right. by apply list_elem_of_singleton.
Qed.

(** C9: the function returned by [onNotification] removes exactly the
    [safeCallback] closure that call installed, whatever was subscribed or
    detached in between, and calling it again changes nothing. *)
Theorem detach_twice_is_detach_once (cb : callback) R :
  well_formed R ->
  let R1 := (onNotification cb R).1 in
  let detach := (onNotification cb R).2 in
  let safe := length (closures R) in
  (well_formed R1
   /\ closures R1 !! safe = Some cb
   /\ listeners (lit "notification") R1
      = listeners (lit "notification") R ++ [safe]
   /\ events (detach R1) = events R)
  /\ forall R', well_formed R' ->
       listeners (lit "notification") (detach R')
       = filter (fun l => l <> safe) (listeners (lit "notification") R')
       /\ (forall channel, channel <> lit "notification" ->
             events (detach R') !! channel = events R' !! channel)
       /\ closures (detach R') = closures R'
       /\ well_formed (detach R')
       /\ detach (detach R') = detach R'.
Proof.
  intros Hwf R1 detach safe. split.
  - split; [by apply onNotification_well_formed |].
    split; [by apply list_lookup_middle |].
    split; [| by apply unsubscribe_onNotification].
    unfold R1, onNotification, listeners, on; simpl.
    by rewrite lookup_insert_eq.
  - intros R' Hwf'. change detach with (unsubscribe safe).
    split; [by apply unsubscribe_listeners |].
    split; [intros channel; apply unsubscribe_other_events |].
    split; [done |].
    split; [by apply unsubscribe_well_formed |].
    apply unsubscribe_absent. rewrite unsubscribe_listeners by done.
    rewrite list_elem_of_filter. by intros [? _].
Qed.

(** The first subscription of a fresh preload world, detached twice. *)
Lemma detach_twice_fresh :
  well_formed fresh_renderer
  /\ let R1 := (onNotification 7%nat fresh_renderer).1 in
     let detach := (onNotification 7%nat fresh_renderer).2 in
     listeners (lit "notification") R1 = [0%nat]
     /\ events (detach R1) = ∅
     /\ detach (detach R1) = detach R1.
Proof.
  split; [apply fresh_renderer_well_formed |].
  destruct (detach_twice_is_detach_once 7%nat fresh_renderer
              fresh_renderer_well_formed) as [(Hwf1 & _ & Hls & Hev) Hdetach].
  split; [exact Hls |]. split; [exact Hev |].
  by destruct (Hdetach _ Hwf1) as (_ & _ & _ & _ & Hidem).
Defined.

(** With two subscribers, the first one detaching twice leaves the second
    one subscribed: a notification still reaches it, and only it; a
    notification that is not a string reaches nobody. *)
Example detach_first_of_two :
  let '(R2, detach_first, detach_second) := two_subscribers in
  listeners (lit "notification") R2 = [0%nat; 1%nat]
  /\ listeners (lit "notification") (detach_first (detach_first R2))
     = [1%nat]
  /\ emit (lit "notification") (Str (lit "saved"))
       (detach_first (detach_first R2))
     = [Called 20%nat (lit "saved")]
  /\ emit (lit "notification") (Number (of_Z 3)) (detach_first R2)
     = [ConsoleWarn (lit "Received invalid notification data")]
  /\ events (detach_second (detach_first R2)) = ∅.
Proof. by vm_compute. Qed.

End Subscriptions.

(** ** The capability surface *)

Section Surface.

Import Preload.

Context {E : Type} (host : envelope -> list E * completion value).

Lemma only_on_Fail {A : Type} (channel : jsstring) (e : error) :
  only_on channel (run (A:=A) host (Fail e)).
Proof. split; simpl; [constructor | lia]. Qed.

Lemma only_on_invoke (channel : string) (args : list value) :
  only_on (lit channel) (run host (invoke channel args)).
Proof.
  unfold only_on. rewrite run_invoke.
  split; [by repeat constructor | simpl; lia].
Qed.

(** Go through the branches of a method down to where it throws or
    invokes. *)
Ltac branches :=
  repeat first
    [ apply only_on_Fail
    | apply only_on_invoke
    | progress cbn [bind eval]
    | match goal with |- context [eval ?c] => destruct c end
    | case_match ].

Lemma getAppVersion_channel (arg : value) :
  only_on (lit "get-app-version") (run host (getAppVersion arg)).
Proof. apply only_on_invoke. Qed.

Lemma ping_channel (arg : value) :
  only_on (lit "ping") (run host (ping arg)).
Proof. apply only_on_invoke. Qed.

Lemma processData_channel (data : value) :
  only_on (lit "process-data") (run host (processData data)).
Proof. unfold processData, mbind, bridge_bind. branches. Qed.

Lemma showOpenDialog_channel (a : argument) :
  only_on (lit "show-open-dialog") (run host (showOpenDialog a)).
Proof. unfold showOpenDialog, mbind, bridge_bind. branches. Qed.

Lemma readFile_channel (filePath : value) :
  only_on (lit "read-file") (run host (readFile filePath)).
Proof. unfold readFile. branches. Qed.

End Surface.

Section SurfaceIsFixed.

Import Preload.

Lemma on_other_events (channel other : jsstring) (l : listener)
  (Ev : gmap jsstring (list listener)) :
  other <> channel -> on channel l Ev !! other = Ev !! other.
Proof. intros Hne. unfold on. by rewrite lookup_insert_ne. Qed.



End SurfaceIsFixed.

(** ** Further properties of the bounded text transform *)

Section ProcessDataMore.

Import Preload Main.

Lemma length_copies (n : nat) (s : jsstring) :
  length (copies n s) = (n * length s)%nat.
Proof.
  unfold copies. induction n as [|n IH]; simpl; [done |].
  by rewrite length_app, IH.
Qed.

(** The handler on a payload that meets its three checks. *)
Lemma process_data_served (sys : system) (data : value)
  (text : jsstring) (n : number) (z : Z) :
  get_opt data "text" = Str text ->
  (length text <= 1000)%nat ->
  get_opt data "count" = Number n ->
  is_int n z -> 0 <= z <= 100 ->
  handle_process_data sys [data]
  = ([], Return (Object
       [ (lit "processed", Str (copies (Z.to_nat z) text));
         (lit "timestamp", Number (of_Z (date_now sys))) ])).
Proof.
  intros Htext Hlen Hcount Hint Hrange.
  unfold handle_process_data. change (arg0 [data]) with data.
  rewrite Htext, Hcount.
  destruct data as [| | | | | |fields]; try discriminate. step.
  replace (Z.of_nat (length text) >? 1000) with false by lia.
  assert (valid_count (Number n)) as Hv by (by exists n, z).
  apply host_count_check in Hv. rewrite Hv.
  destruct n as [| neg | q]; [done.. |].
  unfold repeat. rewrite (is_int_quot _ _ Hint).
  by replace (z <? 0) with false by lia.
Qed.

(** The handler on an argument, one case per way its checks can go. *)
Lemma process_data_cases (sys : system) (args : list value) :
  handle_process_data sys args = ([], Throw (Error "Invalid data format"))
  \/ handle_process_data sys args = ([], Throw (Error "Invalid text field"))
  \/ handle_process_data sys args = ([], Throw (Error "Invalid count field"))
  \/ exists text n z,
       get_opt (arg0 args) "text" = Str text
       /\ (length text <= 1000)%nat
       /\ get_opt (arg0 args) "count" = Number n
       /\ is_int n z /\ 0 <= z <= 100
       /\ handle_process_data sys args
          = ([], Return (Object
               [ (lit "processed", Str (copies (Z.to_nat z) text));
                 (lit "timestamp", Number (of_Z (date_now sys))) ])).
Proof.
  unfold handle_process_data.
  destruct (negb (bool_decide (typeof (arg0 args) = TyObject))
            || is_null (arg0 args)); [by left |].
  destruct (get_opt (arg0 args) "text") as [| | | |text| |];
    try (by right; left).
  destruct (Z.of_nat (length text) >? 1000) eqn:Hlen; [by right; left |].
  destruct (get_opt (arg0 args) "count") as [| | |n| | |];
    try (by right; right; left).
  destruct (Js.lt n (of_Z 0) || gt n (of_Z 100) || negb (isInteger n))
    eqn:Hc; [by right; right; left |].
  right; right; right.
  apply host_count_check in Hc as (n' & z & [= <-] & Hint & Hrange).
  exists text, n, z. repeat (split; [done || lia |]).
  destruct n as [| neg | q]; [done.. |].
  unfold repeat. rewrite (is_int_quot _ _ Hint).
  by replace (z <? 0) with false by lia.
Qed.

(** X1: whatever it is sent, the process-data handler performs no effect
    and ends in one of five ways: the record of the repeated text, or one
    of its three validation messages; no other error escapes it. *)
Theorem process_data_closed_failures (sys : system) (args : list value) :
  (handle_process_data sys args).1 = []
  /\ ((exists processed,
         (handle_process_data sys args).2
         = Return (Object
             [ (lit "processed", Str processed);
               (lit "timestamp", Number (of_Z (date_now sys))) ]))
      \/ exists e, (handle_process_data sys args).2 = Throw e
                   /\ e ∈ process_data_errors).
Proof.
  destruct (process_data_cases sys args)
    as [-> | [-> | [-> | (text & n & z & _ & _ & _ & _ & _ & ->)]]]; simpl.
  4: { split; [done |]. left. by eexists. }
  all: split; [done |]; right; eexists; split; [done |];
       unfold process_data_errors; by repeat constructor.
Qed.

(** X2: the handler serves a payload exactly when its [text] is a string of
    at most 1000 characters and its [count] an integer of 0..100. *)
Theorem process_data_accepts_iff (sys : system) (data : value) :
  (exists v, handle_process_data sys [data] = ([], Return v))
  <-> exists text,
        get_opt data "text" = Str text /\ (length text <= 1000)%nat
        /\ valid_count (get_opt data "count").
Proof.
  split.
  - intros [v Hv].
    destruct (process_data_cases sys [data])
      as [H | [H | [H | (text & n & z & Ht & Hlen & Hc & Hint & Hr & _)]]];
      try (rewrite H in Hv; discriminate).
    exists text. change (arg0 [data]) with data in *.
    split; [done |]. split; [done |]. rewrite Hc. by exists n, z.
  - intros (text & Ht & Hlen & n & z & Hc & Hint & Hr).
    eexists. by eapply process_data_served.
Qed.

(** X3: what the handler returns is never longer than 100 000 characters:
    its length is the length of the request's text, at most 1000, times
    the integer that is the request's count, at most 100. *)
Theorem process_data_output_bounded (sys : system) (args : list value)
  (tr : list effect) (v : value) :
  handle_process_data sys args = (tr, Return v) ->
  exists text n z processed,
    get_opt (arg0 args) "text" = Str text
    /\ get_opt (arg0 args) "count" = Number n
    /\ is_int n z
    /\ get_opt v "processed" = Str processed
    /\ Z.of_nat (length processed) = z * Z.of_nat (length text)
    /\ Z.of_nat (length processed) <= 100000.
Proof.
  intros Hv.
  destruct (process_data_cases sys args)
    as [H | [H | [H | (text & n & z & Ht & Hlen & Hc & Hint & Hr & H)]]];
    rewrite H in Hv; try discriminate.
  injection Hv as <- <-. exists text, n, z, (copies (Z.to_nat z) text).
  split; [done |]. split; [done |]. split; [done |]. split; [reflexivity |].
  rewrite length_copies. split; nia.
Qed.

Lemma process_data_output_hello :
  exists text n z processed,
    get_opt (Object [(lit "text", Str (lit "Hello"));
                     (lit "count", Number (of_Z 3))]) "text" = Str text
    /\ get_opt (Object [(lit "text", Str (lit "Hello"));
                        (lit "count", Number (of_Z 3))]) "count" = Number n
    /\ is_int n z
    /\ get_opt (Object
         [ (lit "processed", Str (lit "HelloHelloHello"));
           (lit "timestamp", Number (of_Z 1700000000000)) ]) "processed"
       = Str processed
    /\ Z.of_nat (length processed) = z * Z.of_nat (length text)
    /\ Z.of_nat (length processed) <= 100000.
Proof.
  apply (process_data_output_bounded sample_system
           [Object [(lit "text", Str (lit "Hello"));
                    (lit "count", Number (of_Z 3))]] []).
  reflexivity.
Defined.

Lemma dispatch_process_data (sys : system) (args : list value) :
  dispatch sys (mkEnvelope (lit "process-data") args)
  = handle_process_data sys args.
Proof. reflexivity. Qed.

(** X4: the Bridge Layer never turns down a payload the Host serves: what
    the handler returns a record for, [processData] forwards unchanged, and
    the call resolves to that record after one request. *)
Theorem host_served_is_forwarded (sys : system) (data : value)
  (tr : list effect) (v : value) :
  handle_process_data sys [data] = (tr, Return v) ->
  processData data = invoke "process-data" [data]
  /\ call sys (processData data)
     = mkOutcome [mkEnvelope (lit "process-data") [data]] [] (Return v).
Proof.
  intros Hv.
  destruct (process_data_cases sys [data])
    as [H | [H | [H | (text & n & z & Ht & Hlen & Hc & Hint & Hr & H)]]];
    rewrite H in Hv; try discriminate.
  injection Hv as <- <-. change (arg0 [data]) with data in *.
  assert (processData data = invoke "process-data" [data]) as Hfwd.
  { assert (isValidNumber (Number n) (of_Z 0) (of_Z 100) = true) as Hok.
    { unfold isValidNumber, ge.
      rewrite (is_int_le_l _ _ _ Hint), (is_int_le_r _ _ _ Hint).
      destruct n; [done.. |]. simpl. lia. }
    assert (isValidString (Str text) 1000 = true) as Hstr by (simpl; lia).
    destruct data as [| | | | | |fields]; try discriminate.
    unfold processData, mbind, bridge_bind, get. unfold get_opt in Ht, Hc.
    rewrite Ht, Hc. cbn [eval Preload.bind]. by rewrite Hstr, Hok. }
  split; [done |]. rewrite Hfwd. unfold call, invoke; simpl.
  rewrite dispatch_process_data, H. reflexivity.
Qed.

Lemma host_served_hello :
  processData (Object [(lit "text", Str (lit "Hello"));
                       (lit "count", Number (of_Z 3))])
  = invoke "process-data"
      [Object [(lit "text", Str (lit "Hello")); (lit "count", Number (of_Z 3))]]
  /\ call sample_system
       (processData (Object [(lit "text", Str (lit "Hello"));
                             (lit "count", Number (of_Z 3))]))
     = mkOutcome
         [mkEnvelope (lit "process-data")
            [Object [(lit "text", Str (lit "Hello"));
                     (lit "count", Number (of_Z 3))]]]
         []
         (Return (Object
            [ (lit "processed", Str (lit "HelloHelloHello"));
              (lit "timestamp", Number (of_Z 1700000000000)) ])).
Proof.
  apply (host_served_is_forwarded sample_system _ []). reflexivity.
Defined.

(** X5: [processData] forwards a payload exactly when its [text] is a
    string of at most 1000 characters and its [count] a finite number
    between 0 and 100; in every other case it throws without sending. *)
Theorem processData_forwards_iff (data : value) :
  (processData data = invoke "process-data" [data]
   <-> exists text q,
         get data "text" = Return (Str text) /\ (length text <= 1000)%nat
         /\ get data "count" = Return (Number (Finite q))
         /\ (0 <= q <= 100)%Q)
  /\ (processData data = invoke "process-data" [data]
      \/ exists e, processData data = Fail e).
Proof.
  unfold processData, mbind, bridge_bind.
  destruct (get data "text") as [t | e] eqn:Ht; cbn [eval Preload.bind].
  2: { split; [| eauto]. split; [done | by intros (? & ? & ? & _)]. }
  destruct (isValidString t 1000) eqn:Hs; cbn [negb].
  2: { split; [| eauto]. split; [done |].
       intros (text & q & [= ->] & Hlen & _). simpl in Hs.
       apply Z.leb_gt in Hs. lia. }
  destruct t as [| | | |text| |]; try discriminate. simpl in Hs.
  destruct (get data "count") as [c | e] eqn:Hc; cbn [eval Preload.bind].
  2: { split; [| eauto]. split; [done | by intros (? & ? & _ & _ & ? & _)]. }
  destruct (isValidNumber c (of_Z 0) (of_Z 100)) eqn:Hn; cbn [negb].
  - split; [| by left]. split; [intros _ | done].
    apply isValidNumber_0_100 in Hn as (q & -> & Hq).
    apply Z.leb_le in Hs. exists text, q.
    split; [done |]. split; [lia |]. by split.
  - split; [| eauto]. split; [done |].
    intros (text' & q & _ & _ & [= ->] & Hq).
    assert (isValidNumber (Number (Finite q)) (of_Z 0) (of_Z 100) = true)
      by (apply isValidNumber_0_100; eauto).
    congruence.
Qed.

End ProcessDataMore.

(** ** Further properties of the bounded file read *)

Section ReadFileMore.

Import Preload Main.

Lemma dispatch_read_file (sys : system) (args : list value) :
  dispatch sys (mkEnvelope (lit "read-file") args) = handle_read_file sys args.
Proof. reflexivity. Qed.

Lemma read_file_arg0 (sys : system) (args : list value) :
  handle_read_file sys args = handle_read_file sys [arg0 args].
Proof. reflexivity. Qed.

Lemma read_file_relative (sys : system) (p : jsstring) :
  isAbsolute (sys_platform sys) p = false ->
  handle_read_file sys [Str p] = ([], Throw (Error "Invalid file path")).
Proof.
  intros Hrel. unfold handle_read_file. step. rewrite Hrel.
  by rewrite orb_true_r.
Qed.

Lemma read_file_not_a_string (sys : system) (v : value) :
  typeof v <> TyString ->
  exists e, handle_read_file sys [v] = ([], Throw e).
Proof.
  intros Hv. unfold handle_read_file. change (arg0 [v]) with v.
  destruct v as [| | | |p|items|]; try done; eauto.
  destruct (array_includes items (lit "..")); eauto.
Qed.

(** Settle the handler on an argument that is no string. *)
Ltac non_string :=
  match goal with
  | |- context [handle_read_file ?sys [?v]] =>
      let e := fresh "e" in
      destruct (read_file_not_a_string sys v ltac:(done)) as [e ->]
  end.

(** X6: [readFile] forwards its argument exactly when it is a string of 1
    to 4095 characters with no null character and no two consecutive dots;
    in every other case, a value that is no string included, it throws
    without sending. *)
Theorem readFile_forwards_iff (filePath : value) :
  (readFile filePath = invoke "read-file" [filePath]
   <-> exists p, filePath = Str p
         /\ (0 < length p < 4096)%nat
         /\ ~ contains p NUL /\ ~ contains p (lit ".."))
  /\ (readFile filePath = invoke "read-file" [filePath]
      \/ readFile filePath = Fail (Error "Invalid file path")
      \/ readFile filePath = Fail (Error "Path traversal detected")).
Proof.
  unfold readFile.
  destruct (isValidPath filePath) eqn:Hvalid; cbn [negb].
  - destruct filePath as [| | | |p| |]; try discriminate. simpl in Hvalid.
    apply andb_true_iff in Hvalid as [[Hpos Hmax]%andb_true_iff Hnul].
    apply negb_true_iff, includes_not_contains in Hnul.
    destruct (includes p (lit "..")) eqn:Hdots.
    + split; [| by right; right]. split; [done |].
      intros (p' & [= <-] & _ & _ & Hno). by apply includes_contains in Hdots.
    + split; [| by left]. split; [intros _ | done].
      apply includes_not_contains in Hdots. exists p. repeat split; try done; lia.
  - split; [| by right; left]. split; [done |].
    intros (p & -> & Hlen & Hnul%includes_not_contains & _).
    simpl in Hvalid. rewrite Hnul in Hvalid.
    replace (0 <? Z.of_nat (length p)) with true in Hvalid by lia.
    replace (Z.of_nat (length p) <? 4096) with true in Hvalid by lia.
    done.
Qed.

(** X7: whatever it is sent, the read-file handler touches the filesystem
    only for a string that passed its check, only at that very path, and
    in this order: one [stat], then at most one [readFile] as UTF-8. *)
Theorem read_file_touches_only_the_path (sys : system) (args : list value) :
  List.filter is_fs_access (handle_read_file sys args).1 = []
  \/ exists p, arg0 args = Str p
       /\ ~ contains p (lit "..")
       /\ isAbsolute (sys_platform sys) p = true
       /\ (List.filter is_fs_access (handle_read_file sys args).1
           = [FsStat p]
           \/ List.filter is_fs_access (handle_read_file sys args).1
              = [FsStat p; FsReadFile p (lit "utf-8")]).
Proof.
  rewrite (read_file_arg0 sys args).
  destruct (arg0 args) as [| | | |p|items|] eqn:Harg;
    try (left; by non_string).
  destruct (includes p (lit "..")) eqn:Hdots;
    [left; by rewrite read_file_dotdot |].
  destruct (isAbsolute (sys_platform sys) p) eqn:Habs;
    [| left; by rewrite read_file_relative].
  right. exists p. split; [done |].
  split; [by apply includes_not_contains |]. split; [done |].
  rewrite (read_file_checked sys p Hdots Habs). cbv zeta.
  destruct (fs_stat sys p) as [st | e]; [| by left].
  destruct (st_isFile st); cbn [negb]; [| by left].
  destruct (st_size st >? MAX_FILE_SIZE); [by left |].
  destruct (fs_readFile sys p); by right.
Qed.

(** X8: everything the handler throws once the path passed its check was
    written to the console first, as the last thing it did; what it throws
    before that is not logged: on an argument that is not a string, that
    holds two consecutive dots or that is not absolute the handler does
    nothing at all before it throws; and what it returns is not logged. *)
Theorem read_file_logs_what_it_throws (sys : system) (args : list value) :
  (forall text e, ConsoleError text e ∈ (handle_read_file sys args).1 ->
     text = lit "Error reading file:"
     /\ (handle_read_file sys args).2 = Throw e
     /\ last (handle_read_file sys args).1 = Some (ConsoleError text e))
  /\ (forall p e, arg0 args = Str p ->
        includes p (lit "..") = false ->
        isAbsolute (sys_platform sys) p = true ->
        (handle_read_file sys args).2 = Throw e ->
        last (handle_read_file sys args).1
        = Some (ConsoleError (lit "Error reading file:") e))
  /\ ((forall p, arg0 args = Str p ->
         includes p (lit "..") = true
         \/ isAbsolute (sys_platform sys) p = false) ->
      (handle_read_file sys args).1 = []
      /\ exists e, (handle_read_file sys args).2 = Throw e).
Proof.
  rewrite (read_file_arg0 sys args).
  destruct (arg0 args) as [| | | |p|items|] eqn:Harg;
    try (non_string;
         split; [by intros ? ? ?%elem_of_nil |];
         split; [by intros ? ? [=] | intros _; split; [done | by eexists]]).
  destruct (includes p (lit "..")) eqn:Hdots.
  { rewrite read_file_dotdot by done.
    split; [by intros ? ? ?%elem_of_nil |].
    split; [by intros ? ? [= <-]; congruence |].
    intros _; split; [done | by eexists]. }
  destruct (isAbsolute (sys_platform sys) p) eqn:Habs.
  2: { rewrite read_file_relative by done.
       split; [by intros ? ? ?%elem_of_nil |].
       split; [by intros ? ? [= <-]; congruence |].
       intros _; split; [done | by eexists]. }
  rewrite (read_file_checked sys p Hdots Habs). cbv zeta.
  match goal with
  | |- ?A /\ ?B /\ _ =>
      enough (A /\ B) as [HA HB];
      [ split; [exact HA | split; [exact HB |]];
        intros H; destruct (H p eq_refl); congruence |]
  end.
  assert (forall (pre : list effect) (text : jsstring) (e e' : error),
            Forall (fun x => is_fs_access x = true) pre ->
            ConsoleError text e
            ∈ pre ++ [ConsoleError (lit "Error reading file:") e'] ->
            text = lit "Error reading file:" /\ e' = e) as Hlog.
  { intros pre text e e' Hpre [Hin | Hin%list_elem_of_singleton]%elem_of_app.
    - rewrite Forall_forall in Hpre. by apply Hpre in Hin.
    - by injection Hin as -> ->. }
  destruct (fs_stat sys p) as [st | e0]; cbn [fst snd].
  2: { split; [| by intros ? e _ _ _ [= ->]]. intros text e Hin.
       destruct (Hlog [FsStat p] text e e0) as [-> ->];
         [by repeat constructor | done | done]. }
  destruct (st_isFile st); cbn [negb fst snd].
  2: { split; [| by intros ? e _ _ _ [= <-]]. intros text e Hin.
       destruct (Hlog [FsStat p] text e (Error "Path is not a file"))
         as [-> <-]; [by repeat constructor | done | done]. }
  destruct (st_size st >? MAX_FILE_SIZE); cbn [fst snd].
  { split; [| by intros ? e _ _ _ [= <-]]. intros text e Hin.
    destruct (Hlog [FsStat p] text e (Error "File too large"))
      as [-> <-]; [by repeat constructor | done | done]. }
  destruct (fs_readFile sys p) as [content | e0]; cbn [fst snd].
  - split; [| by intros ? ? _ _ _ [=]].
    intros text e Hin. exfalso.
    apply elem_of_cons in Hin as [[=] | Hin].
    apply elem_of_cons in Hin as [[=] | Hin]. by apply elem_of_nil in Hin.
  - split; [| by intros ? e _ _ _ [= ->]]. intros text e Hin.
    destruct (Hlog [FsStat p; FsReadFile p (lit "utf-8")] text e e0)
      as [-> ->]; [by repeat constructor | done | done].
Qed.

Lemma readFile_accepts (p : jsstring) :
  (0 < length p < 4096)%nat -> ~ contains p NUL -> ~ contains p (lit "..") ->
  readFile (Str p) = invoke "read-file" [Str p].
Proof.
  intros Hlen Hnul%includes_not_contains Hdots%includes_not_contains.
  unfold readFile, isValidPath. rewrite Hnul, Hdots.
  replace (0 <? Z.of_nat (length p)) with true by lia.
  by replace (Z.of_nat (length p) <? 4096) with true by lia.
Qed.

(** X9: a relative path gets past the Bridge Layer, which does not ask for
    an absolute one, and is stopped by the Host: the request is sent and
    the handler throws its path error without touching the filesystem. *)
Theorem relative_path_stopped_by_host (sys : system) (p : jsstring) :
  isAbsolute (sys_platform sys) p = false ->
  (0 < length p < 4096)%nat -> ~ contains p NUL -> ~ contains p (lit "..") ->
  call sys (readFile (Str p))
  = mkOutcome [mkEnvelope (lit "read-file") [Str p]] []
      (Throw (Error "Invalid file path")).
Proof.
  intros Hrel Hlen Hnul Hdots.
  rewrite (readFile_accepts p Hlen Hnul Hdots). unfold call, invoke; simpl.
  by rewrite dispatch_read_file, (read_file_relative sys p Hrel).
Qed.

Lemma relative_notes_stopped :
  call sample_system (readFile (Str (lit "notes.txt")))
  = mkOutcome [mkEnvelope (lit "read-file") [Str (lit "notes.txt")]] []
      (Throw (Error "Invalid file path")).
Proof.
  apply (relative_path_stopped_by_host sample_system (lit "notes.txt")).
  - reflexivity.
  - simpl. lia.
  - apply includes_not_contains. reflexivity.
  - apply includes_not_contains. reflexivity.
Defined.

(** X10: end to end, reading an absolute path of at most 4095 characters
    without [..] and null character that names a regular file of at most
    10 MiB sends one request, makes the Host call [stat] and [readFile] on
    that path and nothing else, and resolves to the file's text. *)
Theorem readFile_end_to_end (sys : system) (p : jsstring) (st : stats)
  (content : jsstring) :
  isAbsolute (sys_platform sys) p = true ->
  (length p <= 4095)%nat -> ~ contains p NUL -> ~ contains p (lit "..") ->
  fs_stat sys p = Return st -> st_isFile st = true ->
  st_size st <= 10 * 1024 * 1024 ->
  fs_readFile sys p = Return content ->
  call sys (readFile (Str p))
  = mkOutcome [mkEnvelope (lit "read-file") [Str p]]
      [FsStat p; FsReadFile p (lit "utf-8")] (Return (Str content)).
Proof.
  intros Habs Hlen Hnul Hdots Hstat Hfile Hsize Hread.
  pose proof (isAbsolute_nonempty _ _ Habs) as Hpos.
  rewrite (readFile_accepts p) by (done || lia).
  unfold call, invoke; simpl. rewrite dispatch_read_file.
  apply includes_not_contains in Hdots.
  rewrite (read_file_checked sys p Hdots Habs), Hstat, Hfile, Hread.
  cbv zeta. cbn [negb].
  change MAX_FILE_SIZE with (10 * 1024 * 1024).
  by replace (st_size st >? 10 * 1024 * 1024) with false by lia.
Qed.

Lemma readFile_notes_end_to_end :
  call sample_system (readFile (Str (lit "/home/user/notes.txt")))
  = mkOutcome
      [mkEnvelope (lit "read-file") [Str (lit "/home/user/notes.txt")]]
      [FsStat (lit "/home/user/notes.txt");
       FsReadFile (lit "/home/user/notes.txt") (lit "utf-8")]
      (Return (Str (lit "hello world"))).
Proof.
  apply (readFile_end_to_end sample_system (lit "/home/user/notes.txt")
           (mkStats true 12)).
  - reflexivity.
  - simpl. lia.
  - apply includes_not_contains. reflexivity.
  - apply includes_not_contains. reflexivity.
  - reflexivity.
  - reflexivity.
  - simpl. lia.
  - reflexivity.
Defined.

End ReadFileMore.

(** ** The file dialog *)

Section OpenDialog.

Import Preload Main.

Lemma is_valid_property_sane (x : value) :
  is_valid_property x = true -> exists s, x = Str s /\ s ∈ validProperties.
Proof.
  unfold is_valid_property. intros (valid & Hin & Hx)%existsb_exists.
  destruct x as [| | | |s| |]; try discriminate. simpl in Hx.
  apply bool_decide_eq_true in Hx as ->. exists valid.
  split; [done |]. by apply list_elem_of_In.
Qed.

Lemma filter_valid_properties_sane (items : list value) :
  sane_properties (Array (filter is_valid_property items)).
Proof.
  eexists. split; [done |]. apply Forall_forall.
  intros x [Hx _]%list_elem_of_filter.
  apply is_valid_property_sane. by destruct (is_valid_property x).
Qed.

Lemma is_valid_filter_sane (x : value) :
  is_valid_filter x = Return true -> sane_filter x.
Proof.
  unfold is_valid_filter, get, get_opt.
  destruct x as [| | | | | |fields]; try discriminate.
  destruct (lookup_field (lit "name") fields) as [[| | | |name| |] |]
    eqn:Hname; try discriminate; simpl.
  destruct (lookup_field (lit "extensions") fields) as [[| | | | |exts|] |]
    eqn:Hexts; try discriminate; simpl.
  intros [= Hall]. exists fields, name, exts.
  split; [done |]. split; [done |]. split; [done |].
  apply Forall_forall. intros e He%list_elem_of_In.
  rewrite forallb_forall in Hall. specialize (Hall e He).
  destruct e; try discriminate. eauto.
Qed.

Lemma filter_array_sane (items kept : list value) :
  filter_array is_valid_filter items = Return kept -> Forall sane_filter kept.
Proof.
  revert kept. induction items as [|x items IH]; intros kept; simpl.
  - by intros [= <-].
  - destruct (is_valid_filter x) as [keep | e] eqn:Hx; [| done].
    destruct (filter_array is_valid_filter items) as [kept' | e]; [| done].
    intros [= <-]. specialize (IH kept' eq_refl).
    destruct keep; [| done]. constructor; [| done].
    by apply is_valid_filter_sane.
Qed.

(** The second step of [showOpenDialog], on what the first step left. *)
Lemma showOpenDialog_filters (options : value)
  (safe1 : option (list (jsstring * value))) :
  let second :=
    Preload.bind
      (if truthy (get_opt options "filters")
          && isArray (get_opt options "filters")
       then match get_opt options "filters" with
            | Array items =>
                Preload.bind (eval (filter_array is_valid_filter items))
                  (fun kept => Done [(lit "filters", Array kept)])
            | _ => Done []
            end
       else Done [])
      (fun safe2 =>
         match safe1 with
         | Some safe1 => invoke "show-open-dialog" [Object (safe1 ++ safe2)]
         | None => Fail could_not_be_cloned
         end) in
  (exists e, second = Fail e)
  \/ exists fields safe2,
       safe1 = Some fields
       /\ second = invoke "show-open-dialog" [Object (fields ++ safe2)]
       /\ (safe2 = []
           \/ exists items kept, get_opt options "filters" = Array items
                /\ filter_array is_valid_filter items = Return kept
                /\ safe2 = [(lit "filters", Array kept)]).
Proof.
  cbv zeta.
  destruct (get_opt options "filters") as [| |b|n|s|items|fields];
    cbn [isArray]; rewrite ?andb_false_r; cbn [truthy andb Preload.bind].
  6: { destruct (filter_array is_valid_filter items) as [kept | e] eqn:Hk;
         cbn [eval Preload.bind]; [| left; by eauto].
       destruct safe1 as [fields |]; [| left; by eauto].
       right. exists fields, [(lit "filters", Array kept)].
       split; [done |]. split; [done |]. right. by exists items, kept. }
  all: destruct safe1 as [fields' |]; [| left; by eauto];
       right; exists fields', []; split; [done |]; split; [done | by left].
Qed.

(** [showOpenDialog] either throws or forwards a fresh object built from
    at most two fields: [properties], the known names among those of an
    array or else whatever the renderer's own [filter] returned, and
    [filters], the well-formed ones among those of an array. *)
Lemma showOpenDialog_cases (a : argument) :
  (exists e, showOpenDialog a = Fail e)
  \/ exists safe1 safe2,
       showOpenDialog a
       = invoke "show-open-dialog" [Object (safe1 ++ safe2)]
       /\ (safe1 = []
           \/ (exists items,
                 get_opt (arg_data a) "properties" = Array items
                 /\ safe1 = [(lit "properties",
                              Array (filter is_valid_property items))])
           \/ (exists v,
                 truthy (get_opt (arg_data a) "properties") = true
                 /\ isArray (get_opt (arg_data a) "properties") = false
                 /\ filter_call a = Some (Returned v)
                 /\ safe1 = [(lit "properties", v)]))
       /\ (safe2 = []
           \/ exists items kept,
                get_opt (arg_data a) "filters" = Array items
                /\ filter_array is_valid_filter items = Return kept
                /\ safe2 = [(lit "filters", Array kept)]).
Proof.
  unfold showOpenDialog, mbind, bridge_bind. cbv zeta.
  pose proof (showOpenDialog_filters (arg_data a)) as Hsecond.
  cbv zeta in Hsecond.
  destruct (truthy (get_opt (arg_data a) "properties")) eqn:Htruthy.
  - destruct (get_opt (arg_data a) "properties") as [| | | | |items|] eqn:Hp.
    6: { cbn [Preload.bind].
         destruct (Hsecond (Some [(lit "properties",
                                   Array (filter is_valid_property items))]))
           as [[e He] | (fields & safe2 & [= <-] & He & Hs2)];
           [left; by eauto |].
         right. eexists _, safe2. split; [exact He |]. split; [| done].
         right; left. by exists items. }
    all: destruct (filter_call a) as [[v | | e] |] eqn:Hcall;
         cbn [Preload.bind]; try (left; by eauto).
    all: try (destruct (Hsecond None)
                as [[e He] | (fds & safe2 & [=] & _)]; left; by eauto).
    all: destruct (Hsecond (Some [(lit "properties", v)]))
           as [[e He] | (fds & safe2 & [= <-] & He & Hs2)];
           [left; by eauto |];
         right; eexists _, safe2; (split; [exact He |]); (split; [| done]);
         right; right; by exists v.
  - cbn [Preload.bind].
    destruct (Hsecond (Some []))
      as [[e He] | (fields & safe2 & [= <-] & He & Hs2)]; [left; by eauto |].
    right. exists [], safe2. split; [exact He |]. split; [by left | done].
Qed.

Lemma sent_invoke_inv {E : Type} (host : envelope -> list E * completion value)
  (channel : string) (args : list value) (req : envelope) :
  req ∈ sent (run host (invoke channel args)) ->
  req = mkEnvelope (lit channel) args.
Proof. rewrite run_invoke. by intros ->%list_elem_of_singleton. Qed.

(** X11: whatever [showOpenDialog] is called with, a request it sends
    goes on the dialog's channel with one fresh object of at most two
    fields.  Its [filters] is always an array of well-formed filters.  Its
    [properties] is an array of known property names when the renderer
    gave an array; when the renderer gave something else that has a
    function named [filter], it is what that function returned, as it
    is. *)
Theorem showOpenDialog_sends_sane_options (a : argument) (E : Type)
  (host : envelope -> list E * completion value) (req : envelope) :
  req ∈ sent (run host (showOpenDialog a)) ->
  env_channel req = lit "show-open-dialog"
  /\ exists fields, env_args req = [Object fields]
       /\ forall k v, (k, v) ∈ fields ->
            (k = lit "properties"
             /\ if isArray (get_opt (arg_data a) "properties")
                then sane_properties v
                else filter_call a = Some (Returned v))
            \/ (k = lit "filters" /\ sane_filters v).
Proof.
  destruct (showOpenDialog_cases a)
    as [[e ->] | (safe1 & safe2 & -> & Hs1 & Hs2)];
    [by intros ?%elem_of_nil |].
  intros ->%sent_invoke_inv. split; [done |].
  exists (safe1 ++ safe2). split; [done |].
  intros k v [Hin | Hin]%elem_of_app.
  - destruct Hs1 as [-> | [(items & Hp & ->) | (w & _ & Harr & Hcall & ->)]];
      [by apply elem_of_nil in Hin | |];
      apply list_elem_of_singleton in Hin as [= -> ->]; left;
      (split; [done |]).
    + rewrite Hp. apply filter_valid_properties_sane.
    + by rewrite Harr.
  - destruct Hs2 as [-> | (items & kept & _ & Hk & ->)];
      [by apply elem_of_nil in Hin |].
    apply list_elem_of_singleton in Hin as [= -> ->]. right.
    split; [done |]. exists kept. split; [done |]. by eapply filter_array_sane.
Qed.

Lemma app_dialog_request_sane :
  env_channel (mkEnvelope (lit "show-open-dialog") [app_dialog_options])
  = lit "show-open-dialog"
  /\ exists fields,
       env_args (mkEnvelope (lit "show-open-dialog") [app_dialog_options])
       = [Object fields]
       /\ forall k v, (k, v) ∈ fields ->
            (k = lit "properties"
             /\ if isArray (get_opt (arg_data (plain app_dialog_options))
                              "properties")
                then sane_properties v
                else filter_call (plain app_dialog_options)
                     = Some (Returned v))
            \/ (k = lit "filters" /\ sane_filters v).
Proof.
  apply (showOpenDialog_sends_sane_options (plain app_dialog_options) effect
           (dispatch sample_system)).
  vm_compute. constructor.
Defined.

Lemma filter_array_throws (items : list value) :
  Null ∈ items \/ Undefined ∈ items ->
  exists e, filter_array is_valid_filter items = Throw e
            /\ err_name e = lit "TypeError".
Proof.
  induction items as [|x items IH]; simpl.
  - by intros [?%elem_of_nil | ?%elem_of_nil].
  - intros Hin.
    destruct (is_valid_filter x) as [keep | e] eqn:Hx.
    + destruct IH as (e & -> & He); [| by eauto].
      destruct Hin as [[<- | ?]%elem_of_cons | [<- | ?]%elem_of_cons];
        (discriminate || eauto).
    + exists e. split; [done |]. unfold is_valid_filter, get in Hx.
      destruct x; try by injection Hx as <-.
      * destruct (bool_decide _); [destruct (get_opt _ _) |]; discriminate.
      * destruct (bool_decide _); [destruct (get_opt _ _) |]; discriminate.
      * destruct (bool_decide _); [destruct (get_opt _ _) |]; discriminate.
      * destruct (bool_decide _); [destruct (get_opt _ _) |]; discriminate.
      * destruct (bool_decide _); [destruct (get_opt _ _) |]; discriminate.
Qed.

(** X12: what [showOpenDialog] does with a [properties] that is given but
    is no array.  Without a function named [filter] on it, the call throws
    a [TypeError] and nothing is sent; with one, that function is called:
    what it throws is thrown on, and what it returns is sent to the Host as
    [properties] without any check.  An entry of [filters] that is [null]
    or [undefined] makes the call throw a [TypeError] whenever the step
    before did not throw. *)
Theorem showOpenDialog_type_errors (a : argument) :
  (truthy (get_opt (arg_data a) "properties") = true ->
   isArray (get_opt (arg_data a) "properties") = false ->
   (filter_call a = None ->
    exists e, showOpenDialog a = Fail e /\ err_name e = lit "TypeError")
   /\ (forall e, filter_call a = Some (Threw e) -> showOpenDialog a = Fail e)
   /\ (forall v, filter_call a = Some (Returned v) ->
         isArray (get_opt (arg_data a) "filters") = false ->
         showOpenDialog a
         = invoke "show-open-dialog" [Object [(lit "properties", v)]]))
  /\ (forall items,
        truthy (get_opt (arg_data a) "properties") = false
        \/ isArray (get_opt (arg_data a) "properties") = true
        \/ (exists r, filter_call a = Some r /\ forall e, r <> Threw e) ->
        get_opt (arg_data a) "filters" = Array items ->
        Null ∈ items \/ Undefined ∈ items ->
        exists e, showOpenDialog a = Fail e
                  /\ err_name e = lit "TypeError").
Proof.
  unfold showOpenDialog, mbind, bridge_bind. cbv zeta. split.
  - intros -> Harr. split; [| split].
    + intros ->. exists filter_is_not_a_function. split; [| done].
      by destruct (get_opt (arg_data a) "properties").
    + intros e ->. by destruct (get_opt (arg_data a) "properties").
    + intros v -> ->. rewrite andb_false_r.
      by destruct (get_opt (arg_data a) "properties").
  - intros items Hprops -> Hin.
    destruct (filter_array_throws items Hin) as (e & He & Hname).
    exists e. split; [| done]. cbn [truthy isArray andb]. rewrite He.
    destruct (truthy (get_opt (arg_data a) "properties")) eqn:Ht; [| done].
    destruct Hprops as [? | [Harr | (r & -> & Hr)]]; [done | |].
    + by destruct (get_opt (arg_data a) "properties").
    + destruct (get_opt (arg_data a) "properties"); try done;
        destruct r; try done; by destruct (Hr e0).
Qed.

Lemma dispatch_show_open_dialog (sys : system) (args : list value) :
  dispatch sys (mkEnvelope (lit "show-open-dialog") args)
  = handle_show_open_dialog sys args.
Proof. reflexivity. Qed.

(** The options the Host hands to the dialog. *)
Lemma show_open_dialog_effects (sys : system) (args : list value) (x : effect) :
  x ∈ (handle_show_open_dialog sys args).1 ->
  mainWindow sys = true
  /\ x = DialogShowOpenDialog (Object
        [ (lit "properties",
           match get_opt (arg0 args) "properties" with
           | Array items => Array (filter is_valid_property items)
           | _ => Array [Str (lit "openFile")]
           end);
          (lit "filters",
           match get_opt (arg0 args) "filters" with
           | Array items => Array items
           | _ => Array []
           end) ]).
Proof.
  unfold handle_show_open_dialog.
  destruct (mainWindow sys); cbn [negb]; [| by intros ?%elem_of_nil].
  by intros ->%list_elem_of_singleton.
Qed.

Lemma default_properties_sane :
  sane_properties (Array [Str (lit "openFile")]).
Proof.
  eexists. split; [done |]. apply Forall_singleton.
  eexists. split; [done |]. by repeat constructor.
Qed.

(** X13: the Host's handler opens the dialog only while there is a main
    window, at most once, with a [properties] array of known names, the
    single [openFile] when the request gave no array, and resolves to what
    the dialog answered; without a main window it throws and opens
    nothing. *)
Theorem show_open_dialog_host (sys : system) (args : list value) :
  (mainWindow sys = false ->
   handle_show_open_dialog sys args
   = ([], Throw (Error "No main window available")))
  /\ (mainWindow sys = true ->
      exists ps fs,
        sane_properties (Array ps)
        /\ (isArray (get_opt (arg0 args) "properties") = false ->
            ps = [Str (lit "openFile")])
        /\ handle_show_open_dialog sys args
           = ([DialogShowOpenDialog
                 (Object [(lit "properties", Array ps);
                          (lit "filters", Array fs)])],
              dialog_showOpenDialog sys
                (Object [(lit "properties", Array ps);
                         (lit "filters", Array fs)]))).
Proof.
  unfold handle_show_open_dialog. split; intros ->; cbn [negb]; [done |].
  destruct (get_opt (arg0 args) "properties") as [| | | | |items|];
    destruct (get_opt (arg0 args) "filters") as [| | | | |fitems|];
    eexists _, _; (split; [| split; [| reflexivity]]);
    first [apply default_properties_sane
          | apply filter_valid_properties_sane
          | done
          | by intros [=] ].
Qed.

(** X14: through the surface, the native dialog is only ever opened with
    a [properties] array of known names and a [filters] array of
    well-formed filters, whatever the renderer passed, a function of its
    own to choose the properties included. *)
Theorem dialog_opens_with_sane_options (sys : system) (a : argument)
  (x : effect) :
  x ∈ host_effects (call sys (showOpenDialog a)) ->
  exists ps fs,
    x = DialogShowOpenDialog
          (Object [(lit "properties", Array ps); (lit "filters", Array fs)])
    /\ sane_properties (Array ps) /\ Forall sane_filter fs.
Proof.
  destruct (showOpenDialog_cases a)
    as [[e ->] | (safe1 & safe2 & -> & Hs1 & Hs2)];
    [by intros ?%elem_of_nil |].
  unfold call, invoke. cbn [run]. rewrite dispatch_show_open_dialog.
  destruct (handle_show_open_dialog sys [Object (safe1 ++ safe2)])
    as [tr r] eqn:Hrun. 
  assert (tr = (handle_show_open_dialog sys [Object (safe1 ++ safe2)]).1)
    as Htr by (by rewrite Hrun).
  destruct r; cbn [host_effects eval run]; rewrite app_nil_r, Htr;
    intros [_ ->]%show_open_dialog_effects;
    change (arg0 [Object (safe1 ++ safe2)]) with (Object (safe1 ++ safe2)).
  all: destruct Hs1 as [-> | [(items & _ & ->) | (w & _ & _ & _ & ->)]];
       destruct Hs2 as [-> | (fitems & kept & _ & Hk & ->)];
       try change (get_opt (Object ([(lit "properties", w)] ++ _))
                     "properties") with w;
       try destruct w;
       eexists _, _; (split; [reflexivity |]);
       (split; [first [apply default_properties_sane
                      | apply filter_valid_properties_sane] |]);
       first [by apply Forall_nil | by eapply filter_array_sane].
Qed.

Lemma app_dialog_opens_sane :
  exists ps fs,
    DialogShowOpenDialog app_dialog_options
    = DialogShowOpenDialog
        (Object [(lit "properties", Array ps); (lit "filters", Array fs)])
    /\ sane_properties (Array ps) /\ Forall sane_filter fs.
Proof.
  apply (dialog_opens_with_sane_options sample_system
           (plain app_dialog_options)).
  vm_compute. constructor.
Defined.

End OpenDialog.

(** ** Channel names on both sides, and the two plain queries *)

Section Agreement.

Import Preload Main.

Lemma only_on_channel {E A : Type} (channel : jsstring) (o : outcome E A)
  (req : envelope) :
  only_on channel o -> req ∈ sent o -> env_channel req = channel.
Proof. intros [Hall _] Hin. rewrite Forall_forall in Hall. by apply Hall. Qed.

(** One call of a request method that gets through to a given channel. *)
Lemma reaches_channel (name : jsstring) (f : argument -> bridge value)
  (arg : argument) (channel : string) (args : list value) :
  (name, Async f) ∈ electronAPI ->
  f arg = invoke channel args ->
  exists name f arg,
    (name, Async f) ∈ electronAPI
    /\ forall (E : Type) (host : envelope -> list E * completion value),
         exists req, req ∈ sent (run host (f arg))
                     /\ env_channel req = lit channel.
Proof.
  intros Hin Hcall. exists name, f, arg. split; [done |].
  intros E host. exists (mkEnvelope (lit channel) args).
  rewrite Hcall, run_invoke. split; [by constructor | done].
Qed.

(** X15: every request a method of the surface sends, whatever it is
    called with and whatever the Host answers, arrives on a channel the
    main process registered a handler for; and every handler the main
    process registered is reached by a call of some method of the
    surface. *)
Theorem every_request_has_a_handler :
  (forall name f, (name, Async f) ∈ electronAPI ->
     forall (arg : argument) (E : Type)
       (host : envelope -> list E * completion value) (req : envelope),
       req ∈ sent (run host (f arg)) ->
       is_Some (ipcMain !! env_channel req))
  /\ (forall channel, is_Some (ipcMain !! channel) ->
        exists name f arg,
          (name, Async f) ∈ electronAPI
          /\ forall (E : Type) (host : envelope -> list E * completion value),
               exists req, req ∈ sent (run host (f arg))
                           /\ env_channel req = channel).
Proof.
  split.
  - intros name f Hin arg E host req Hreq. unfold electronAPI in Hin.
    repeat (apply elem_of_cons in Hin as [Heq | Hin];
            [try discriminate Heq; injection Heq as -> -> |]);
      [ rewrite (only_on_channel _ _ _
                   (getAppVersion_channel host (arg_data arg)) Hreq)
      | rewrite (only_on_channel _ _ _ (ping_channel host (arg_data arg)) Hreq)
      | rewrite (only_on_channel _ _ _
                   (processData_channel host (arg_data arg)) Hreq)
      | rewrite (only_on_channel _ _ _ (showOpenDialog_channel host arg) Hreq)
      | rewrite (only_on_channel _ _ _
                   (readFile_channel host (arg_data arg)) Hreq)
      | by apply elem_of_nil in Hin ];
      by eexists.
  - intros channel Hch%elem_of_dom.
    assert (dom ipcMain = list_to_set (C:=gset jsstring) request_channels)
      as Hdom by (by vm_compute).
    rewrite Hdom in Hch. apply elem_of_list_to_set in Hch.
    unfold request_channels in Hch.
    repeat (apply elem_of_cons in Hch as [-> | Hch]);
      [ | | | | | by apply elem_of_nil in Hch ].
    + apply (reaches_channel (lit "getAppVersion")
               (fun a => getAppVersion (arg_data a)) (plain Undefined)
               "get-app-version" []);
        [unfold electronAPI; by repeat constructor | reflexivity].
    + apply (reaches_channel (lit "ping")
               (fun a => ping (arg_data a)) (plain Undefined) "ping" []);
        [unfold electronAPI; by repeat constructor | reflexivity].
    + apply (reaches_channel (lit "processData")
               (fun a => processData (arg_data a))
               (plain (Object [(lit "text", Str (lit "Hello"));
                               (lit "count", Number (of_Z 3))]))
               "process-data"
               [Object [(lit "text", Str (lit "Hello"));
                        (lit "count", Number (of_Z 3))]]);
        [unfold electronAPI; by repeat constructor | reflexivity].
    + apply (reaches_channel (lit "showOpenDialog") showOpenDialog
               (plain Undefined) "show-open-dialog" [Object []]);
        [unfold electronAPI; by repeat constructor | reflexivity].
    + apply (reaches_channel (lit "readFile")
               (fun a => readFile (arg_data a))
               (plain (Str (lit "/home/user/notes.txt"))) "read-file"
               [Str (lit "/home/user/notes.txt")]);
        [unfold electronAPI; by repeat constructor | reflexivity].
Qed.

(** X16: the two queries without payload, end to end: [ping] resolves to
    ["pong"] after one request and one line on the Host's console,
    [getAppVersion] to the record of the five version strings without any
    Host effect; both drop whatever the renderer passes them. *)
Theorem ping_and_version_round_trip (sys : system) (arg : value) :
  call sys (ping arg)
  = mkOutcome [mkEnvelope (lit "ping") []]
      [ConsoleLog (lit "Received ping from renderer")]
      (Return (Str (lit "pong")))
  /\ call sys (getAppVersion arg)
     = mkOutcome [mkEnvelope (lit "get-app-version") []] []
         (Return (Object
            [ (lit "version", Str (app_getVersion sys));
              (lit "name", Str (app_getName sys));
              (lit "electronVersion", Str (versions_electron sys));
              (lit "chromeVersion", Str (versions_chrome sys));
              (lit "nodeVersion", Str (versions_node sys)) ])).
Proof. split; reflexivity. Qed.

End Agreement.

(** ** Delivery of notifications *)

Section Delivery.

Import Preload.

Implicit Types (R : renderer).

(** What one listener does with a message. *)
Lemma emit_unfold (channel : jsstring) (message : value) R :
  emit channel message R
  = listeners channel R ≫= fun l =>
      match closures R !! l with
      | Some cb => safeCallback cb message
      | None => []
      end.
Proof. reflexivity. Qed.

Lemma well_formed_listeners (channel : jsstring) R :
  well_formed R ->
  Forall (fun l => (l < length (closures R))%nat) (listeners channel R).
Proof.
  intros Hwf. unfold listeners.
  destruct (events R !! channel) as [ls |] eqn:Hls; simpl; [| done].
  by destruct (Hwf _ _ Hls) as (_ & _ & Hin).
Qed.

Lemma bind_same_closures (message : value) (cs cs' : list callback)
  (ls : list listener) :
  Forall (fun l => cs !! l = cs' !! l) ls ->
  ls ≫= (fun l => match cs !! l with
                  | Some cb => safeCallback cb message
                  | None => []
                  end)
  = ls ≫= (fun l => match cs' !! l with
                   | Some cb => safeCallback cb message
                   | None => []
                   end).
Proof.
  induction 1 as [|l ls Hl _ IH]; [done |].
  cbn [mbind list_bind]. by rewrite Hl, IH.
Qed.



(** X18: a notification that is no string never reaches a callback: every
    listener only writes the warning. *)
Theorem malformed_notification_dropped R (channel : jsstring)
  (message : value) (x : observation) :
  typeof message <> TyString ->
  x ∈ emit channel message R ->
  x = ConsoleWarn (lit "Received invalid notification data").
Proof.
  intros Hty. rewrite emit_unfold.
  intros (l & Hx & _)%list_elem_of_bind.
  destruct (closures R !! l) as [cb |]; [| by apply elem_of_nil in Hx].
  destruct message; try done; by apply list_elem_of_singleton in Hx.
Qed.

Lemma malformed_number_dropped :
  emit (lit "notification") (Number (of_Z 3))
    (onNotification 7%nat fresh_renderer).1
  = [ConsoleWarn (lit "Received invalid notification data")]
  /\ forall x,
       x ∈ emit (lit "notification") (Number (of_Z 3))
             (onNotification 7%nat fresh_renderer).1 ->
       x = ConsoleWarn (lit "Received invalid notification data").
Proof.
  split; [reflexivity |]. intros x.
  by apply (malformed_notification_dropped
              (onNotification 7%nat fresh_renderer).1
              (lit "notification") (Number (of_Z 3))).
Defined.

(** X19: subscribing and detaching again leaves deliveries as they were:
    every message reaches the same callbacks in the same order as before
    the subscription, and not the detached one. *)
Theorem detached_subscriber_is_silent (cb : callback) R (channel : jsstring)
  (message : value) :
  well_formed R ->
  emit channel message ((onNotification cb R).2 (onNotification cb R).1)
  = emit channel message R.
Proof.
  intros Hwf. rewrite !emit_unfold.
  assert (listeners channel ((onNotification cb R).2 (onNotification cb R).1)
          = listeners channel R) as ->.
  { unfold listeners. by rewrite unsubscribe_onNotification. }
  cbn [onNotification fst snd unsubscribe closures].
  symmetry. apply bind_same_closures.
  eapply Forall_impl; [by apply well_formed_listeners |]. simpl.
  intros l Hl. by rewrite lookup_app_l.
Qed.

Lemma detached_first_subscriber_is_silent :
  well_formed fresh_renderer
  /\ emit (lit "notification") (Str (lit "saved"))
       ((onNotification 7%nat fresh_renderer).2
          (onNotification 7%nat fresh_renderer).1)
     = [].
Proof.
  split; [apply fresh_renderer_well_formed |].
  apply (detached_subscriber_is_silent 7%nat fresh_renderer).
  apply fresh_renderer_well_formed.
Defined.

End Delivery.

(** ** Registering and removing the handlers of ipc/handlers *)

Section Registry.

Import Handlers.

Implicit Types (reg : gmap jsstring handler).

Lemma handle_free (channel : jsstring) (fn : handler) reg :
  reg !! channel = None ->
  handle channel fn reg = (<[channel := fn]> reg, Return ()).
Proof. intros H. unfold handle. by rewrite H. Qed.

Lemma handle_taken (channel : jsstring) (fn h : handler) reg :
  reg !! channel = Some h ->
  handle channel fn reg
  = (reg, Throw (mkError (lit "Error")
       (lit "Attempted to register a second handler for '" ++ channel
        ++ lit "'"))).
Proof. intros H. unfold handle. by rewrite H. Qed.

(** Registration on a registry where the three channels are free. *)
Lemma register_free reg :
  reg !! lit "app:ping" = None ->
  reg !! lit "app:getVersion" = None ->
  reg !! lit "data:process" = None ->
  registerIPCHandlers reg
  = (<[lit "data:process" := handle_data_process]>
       (<[lit "app:getVersion" := handle_app_getVersion]>
          (<[lit "app:ping" := handle_app_ping]> reg)),
     Return ()).
Proof.
  intros Hping Hversion Hdata. unfold registerIPCHandlers, and_then.
  rewrite (handle_free _ _ _ Hping).
  rewrite handle_free by (by rewrite lookup_insert_ne).
  by rewrite handle_free by (by rewrite !lookup_insert_ne).
Qed.

(** A registration that went through started from three free channels. *)
Lemma register_succeeded reg reg' :
  registerIPCHandlers reg = (reg', Return ()) ->
  reg !! lit "app:ping" = None
  /\ reg !! lit "app:getVersion" = None
  /\ reg !! lit "data:process" = None.
Proof.
  unfold registerIPCHandlers, and_then, handle.
  destruct (reg !! lit "app:ping") eqn:Hping; [done |].
  rewrite lookup_insert_ne by done.
  destruct (reg !! lit "app:getVersion") eqn:Hversion; [done |].
  rewrite !lookup_insert_ne by done.
  by destruct (reg !! lit "data:process").
Qed.

(** X20: on a registry where the three channels are free, registering
    binds exactly these three, each to its handler, and removing them
    afterwards gives back the registry as it was. *)
Theorem register_then_unregister reg :
  reg !! lit "app:ping" = None ->
  reg !! lit "app:getVersion" = None ->
  reg !! lit "data:process" = None ->
  exists reg',
    registerIPCHandlers reg = (reg', Return ())
    /\ reg' !! lit "app:ping" = Some handle_app_ping
    /\ reg' !! lit "app:getVersion" = Some handle_app_getVersion
    /\ reg' !! lit "data:process" = Some handle_data_process
    /\ (forall channel,
          channel ∉ [lit "app:ping"; lit "app:getVersion"; lit "data:process"]
          -> reg' !! channel = reg !! channel)
    /\ unregisterIPCHandlers reg' = reg.
Proof.
  intros Hping Hversion Hdata. eexists. split; [by apply register_free |].
  split; [by rewrite !lookup_insert_ne, lookup_insert_eq by done |].
  split; [by rewrite lookup_insert_ne, lookup_insert_eq by done |].
  split; [by rewrite lookup_insert_eq |]. split.
  - intros channel Hch. rewrite !not_elem_of_cons in Hch.
    destruct Hch as (? & ? & ? & _). by rewrite !lookup_insert_ne.
  - unfold unregisterIPCHandlers, removeHandler. apply map_eq. intros channel.
    destruct (decide (channel = lit "data:process")) as [-> |];
      [by rewrite lookup_delete_eq |].
    rewrite lookup_delete_ne by done.
    destruct (decide (channel = lit "app:getVersion")) as [-> |];
      [by rewrite lookup_delete_eq |].
    rewrite lookup_delete_ne by done.
    destruct (decide (channel = lit "app:ping")) as [-> |];
      [by rewrite lookup_delete_eq |].
    rewrite lookup_delete_ne by done. by rewrite !lookup_insert_ne.
Qed.

Lemma register_then_unregister_empty :
  exists reg',
    registerIPCHandlers ∅ = (reg', Return ())
    /\ reg' !! lit "app:ping" = Some handle_app_ping
    /\ reg' !! lit "app:getVersion" = Some handle_app_getVersion
    /\ reg' !! lit "data:process" = Some handle_data_process
    /\ (forall channel,
          channel ∉ [lit "app:ping"; lit "app:getVersion"; lit "data:process"]
          -> reg' !! channel = (∅ : gmap jsstring handler) !! channel)
    /\ unregisterIPCHandlers reg' = ∅.
Proof. apply (register_then_unregister ∅); reflexivity. Defined.

(** X21: registering a second time throws at the first channel and leaves
    the registry as the first registration made it. *)
Theorem register_twice_throws reg reg' :
  registerIPCHandlers reg = (reg', Return ()) ->
  registerIPCHandlers reg'
  = (reg', Throw (mkError (lit "Error")
       (lit "Attempted to register a second handler for 'app:ping'"))).
Proof.
  intros Hfirst.
  destruct (register_succeeded _ _ Hfirst) as (Hping & Hversion & Hdata).
  rewrite (register_free _ Hping Hversion Hdata) in Hfirst.
  injection Hfirst as <-. unfold registerIPCHandlers, and_then.
  by erewrite handle_taken
    by (by rewrite !lookup_insert_ne, lookup_insert_eq by done).
Qed.

Lemma register_twice_throws_empty :
  registerIPCHandlers (registerIPCHandlers ∅).1
  = ((registerIPCHandlers ∅).1,
     Throw (mkError (lit "Error")
       (lit "Attempted to register a second handler for 'app:ping'"))).
Proof.
  apply (register_twice_throws ∅ (registerIPCHandlers ∅).1).
  by rewrite register_free.
Defined.

(** X22: registration is not all or nothing: when [app:getVersion] is
    taken and [app:ping] is free, it throws at [app:getVersion] and
    [app:ping] stays bound to the new handler. *)
Theorem register_is_not_atomic reg (h : handler) :
  reg !! lit "app:ping" = None ->
  reg !! lit "app:getVersion" = Some h ->
  registerIPCHandlers reg
  = (<[lit "app:ping" := handle_app_ping]> reg,
     Throw (mkError (lit "Error")
       (lit "Attempted to register a second handler for 'app:getVersion'"))).
Proof.
  intros Hping Hversion. unfold registerIPCHandlers, and_then.
  rewrite (handle_free _ _ _ Hping).
  by erewrite handle_taken by (by rewrite lookup_insert_ne).
Qed.

Lemma register_is_not_atomic_sample :
  registerIPCHandlers {[ lit "app:getVersion" := handle_app_ping ]}
  = (<[lit "app:ping" := handle_app_ping]>
       {[ lit "app:getVersion" := handle_app_ping ]},
     Throw (mkError (lit "Error")
       (lit "Attempted to register a second handler for 'app:getVersion'"))).
Proof.
  apply (register_is_not_atomic _ handle_app_ping); reflexivity.
Defined.

Lemma unregister_lookup_in reg (channel : jsstring) :
  channel ∈ [lit "app:ping"; lit "app:getVersion"; lit "data:process"] ->
  unregisterIPCHandlers reg !! channel = None.
Proof.
  intros Hch. unfold unregisterIPCHandlers, removeHandler.
  repeat (apply elem_of_cons in Hch as [-> | Hch]);
    [| | | by apply elem_of_nil in Hch].
  - by rewrite !lookup_delete_ne, lookup_delete_eq by done.
  - by rewrite lookup_delete_ne, lookup_delete_eq by done.
  - by rewrite lookup_delete_eq.
Qed.

Lemma unregister_lookup_out reg (channel : jsstring) :
  channel ∉ [lit "app:ping"; lit "app:getVersion"; lit "data:process"] ->
  unregisterIPCHandlers reg !! channel = reg !! channel.
Proof.
  intros Hch. rewrite !not_elem_of_cons in Hch.
  destruct Hch as (? & ? & ? & _).
  unfold unregisterIPCHandlers, removeHandler. by rewrite !lookup_delete_ne.
Qed.

(** X23: removing the handlers works on any registry: it unbinds the three
    channels and no other, doing it twice is doing it once, and a request
    on one of the three then finds no handler. *)
Theorem unregister_any_registry reg :
  (forall channel,
     channel ∈ [lit "app:ping"; lit "app:getVersion"; lit "data:process"] ->
     unregisterIPCHandlers reg !! channel = None)
  /\ (forall channel,
        channel ∉ [lit "app:ping"; lit "app:getVersion"; lit "data:process"]
        -> unregisterIPCHandlers reg !! channel = reg !! channel)
  /\ unregisterIPCHandlers (unregisterIPCHandlers reg)
     = unregisterIPCHandlers reg
  /\ (forall version args,
        dispatch (unregisterIPCHandlers reg) version (lit "app:ping") args
        = ([], Throw (mkError (lit "Error")
             (lit "No handler registered for 'app:ping'")))).
Proof.
  split; [apply unregister_lookup_in |].
  split; [apply unregister_lookup_out |]. split.
  - apply map_eq. intros channel.
    destruct (decide (channel ∈ [lit "app:ping"; lit "app:getVersion";
                                 lit "data:process"])) as [Hin | Hout].
    + by rewrite !unregister_lookup_in.
    + by rewrite unregister_lookup_out.
  - intros version args. unfold dispatch.
    rewrite unregister_lookup_in by (by repeat constructor). reflexivity.
Qed.

(** X24: once registered on a free registry, the three channels answer:
    [app:ping] with ["pong"], [app:getVersion] with the package version
    when it is set and not empty and with ["1.0.0"] otherwise, never with
    an empty string, [data:process] with its argument wrapped as a success
    after logging it. *)
Theorem registered_handlers_answer reg reg' (version : option jsstring)
  (args : list value) :
  registerIPCHandlers reg = (reg', Return ()) ->
  dispatch reg' version (lit "app:ping") args
  = ([], Return (Str (lit "pong")))
  /\ (exists v, dispatch reg' version (lit "app:getVersion") args
                = ([], Return (Str v))
        /\ v <> []
        /\ (forall s, version = Some s -> s <> [] -> v = s)
        /\ (version = None \/ version = Some [] -> v = lit "1.0.0"))
  /\ dispatch reg' version (lit "data:process") args
     = ([ConsoleLog (lit "Processing data:") (Main.arg0 args)],
        Return (Object [(lit "success", Boolean true);
                        (lit "data", Main.arg0 args)])).
Proof.
  intros Hreg.
  destruct (register_succeeded _ _ Hreg) as (Hping & Hversion & Hdata).
  rewrite (register_free _ Hping Hversion Hdata) in Hreg.
  injection Hreg as <-. unfold dispatch.
  rewrite lookup_insert_eq.
  rewrite (lookup_insert_ne _ (lit "data:process") (lit "app:getVersion"))
    by done.
  rewrite lookup_insert_eq.
  rewrite !(lookup_insert_ne _ _ (lit "app:ping")) by done.
  rewrite lookup_insert_eq.
  split; [done |]. split; [| done].
  unfold handle_app_getVersion.
  destruct version as [[| c s] |]; simpl.
  - exists (lit "1.0.0"). split; [done |]. split; [done |].
    split; [by intros ? [= <-] | done].
  - exists (c :: s). split; [done |]. split; [done |].
    split; [by intros ? [= <-] | by intros [[=] | [=]]].
  - exists (lit "1.0.0"). split; [done |]. split; [done |].
    split; [by intros ? [=] | done].
Qed.

Lemma registered_handlers_answer_empty :
  dispatch (registerIPCHandlers ∅).1 (Some (lit "2.3.1")) (lit "app:ping") []
  = ([], Return (Str (lit "pong")))
  /\ (exists v,
        dispatch (registerIPCHandlers ∅).1 (Some (lit "2.3.1"))
          (lit "app:getVersion") []
        = ([], Return (Str v))
        /\ v <> []
        /\ (forall s, Some (lit "2.3.1") = Some s -> s <> [] -> v = s)
        /\ (Some (lit "2.3.1") = None \/ Some (lit "2.3.1") = Some [] ->
            v = lit "1.0.0"))
  /\ dispatch (registerIPCHandlers ∅).1 (Some (lit "2.3.1"))
       (lit "data:process") []
     = ([ConsoleLog (lit "Processing data:") (Main.arg0 [])],
        Return (Object [(lit "success", Boolean true);
                        (lit "data", Main.arg0 [])])).
Proof.
  apply (registered_handlers_answer ∅ (registerIPCHandlers ∅).1).
  by rewrite register_free.
Defined.

End Registry.

(** ** The renderer's hooks against the published surface *)

Section HooksOnSurface.

(** X25: against the object the preload script publishes, the three
    callbacks of [useIPC] never reach a function: the object has no
    [invoke], [on] or [off], so each only warns and gives back nothing,
    and [useAppVersion] keeps [null] for ever; the same holds when no
    object was published at all. *)
Theorem hooks_find_no_ipc
  (apply_method : Preload.method -> list Hooks.argument -> completion value)
  (channel : jsstring) (args : list value) (callback : Preload.callback) :
  let published := Some Preload.electronAPI in
  (Hooks.invoke published apply_method channel args
   = ([lit "IPC not available"], Return Null)
   /\ Hooks.on published apply_method channel callback
      = ([lit "IPC not available"], Return Undefined)
   /\ Hooks.off published apply_method channel callback
      = ([lit "IPC not available"], Return Undefined)
   /\ Hooks.useAppVersion published apply_method = Null)
  /\ (Hooks.invoke None apply_method channel args
      = ([lit "IPC not available"], Return Null)
      /\ Hooks.useAppVersion None apply_method = Null).
Proof. by repeat split. Qed.

End HooksOnSurface.

(** ** Formatting a file size *)

Section FileSize.

Import Format.

Lemma ge_1024_false (q : Q) :
  ge (Finite q) (of_Z 1024) = false -> (q < 1024)%Q.
Proof.
  intros H. change (Qle_bool 1024 q = false) in H.
  apply Qnot_le_lt. intros Hle. apply Qle_bool_iff in Hle. congruence.
Qed.

Lemma ge_1024_true (q : Q) :
  ge (Finite q) (of_Z 1024) = true -> (1 <= q / 1024)%Q.
Proof.
  intros H. change (Qle_bool 1024 q = true) in H.
  apply Qle_bool_iff in H. apply Qle_shift_div_l; lra.
Qed.

(** The loop's test. *)
Lemma loop_step (fuel : nat) (size : number) (k : nat) :
  loop (S fuel) size k
  = if ge size (of_Z 1024) && (k <? 4)%nat
    then loop fuel (div1024 size) (S k)
    else (size, k).
Proof. reflexivity. Qed.

Lemma loop_stable (fuel : nat) (size : number) (k : nat) :
  ge size (of_Z 1024) && (k <? 4)%nat = false -> loop fuel size k = (size, k).
Proof. intros H. destruct fuel; [done |]. by rewrite loop_step, H. Qed.

(** With fuel for the units that are left, the loop has come to its end:
    its test fails on what it returns. *)
Lemma loop_exit (fuel : nat) (size : number) (k : nat) :
  (4 - k <= fuel)%nat ->
  ge (loop fuel size k).1 (of_Z 1024)
  && ((loop fuel size k).2 <? 4)%nat = false
  /\ (k <= (loop fuel size k).2 <= Nat.max k 4)%nat.
Proof.
  revert size k. induction fuel as [|fuel IH]; intros size k Hfuel.
  - simpl. split; [| lia].
    replace (k <? 4)%nat with false by (symmetry; apply Nat.ltb_ge; lia).
    apply andb_false_r.
  - rewrite loop_step.
    destruct (ge size (of_Z 1024) && (k <? 4)%nat) eqn:Htest.
    + apply andb_true_iff in Htest as [_ Hk%Nat.ltb_lt].
      destruct (IH (div1024 size) (S k)) as [Hexit Hrange]; [lia |].
      split; [done | lia].
    + simpl. split; [done | lia].
Qed.

Lemma loop_more (fuel extra : nat) (size : number) (k : nat) :
  (4 - k <= fuel)%nat -> loop (fuel + extra) size k = loop fuel size k.
Proof.
  revert size k. induction fuel as [|fuel IH]; intros size k Hfuel.
  - simpl. apply loop_stable.
    replace (k <? 4)%nat with false by (symmetry; apply Nat.ltb_ge; lia).
    apply andb_false_r.
  - cbn [Nat.add]. rewrite !loop_step.
    destruct (ge size (of_Z 1024) && (k <? 4)%nat) eqn:Htest; [| done].
    apply IH. lia.
Qed.

(** X26: for every number, NaN and the infinities included, the loop of
    [formatFileSize] is over within its five rounds, more rounds would
    change nothing, and the index it leaves names a unit. *)
Theorem formatFileSize_loop_ends (bytes : number) (extra : nat) :
  exists size unitIndex unit,
    loop (length units) bytes 0 = (size, unitIndex)
    /\ units !! unitIndex = Some unit
    /\ ge size (of_Z 1024) && (unitIndex <? length units - 1)%nat = false
    /\ loop (length units + extra) bytes 0 = (size, unitIndex).
Proof.
  destruct (loop_exit (length units) bytes 0) as [Hexit Hrange];
    [simpl; lia |].
  rewrite loop_more by (simpl; lia).
  destruct (loop (length units) bytes 0) as [size unitIndex]; simpl in *.
  assert (unitIndex < length units)%nat as Hidx by (simpl; lia).
  apply lookup_lt_is_Some_2 in Hidx as [unit Hunit].
  by exists size, unitIndex, unit.
Qed.

(** X27: on a finite number of bytes, [formatFileSize] divides by 1024 as
    often as the unit says and loses nothing before rounding; up to GB the
    number shown is below 1024, from KB on it is at least 1; a number
    below 1024, negative ones included, is shown in B as it is. *)
Theorem formatFileSize_picks_unit (toFixed : number -> Z -> jsstring) (q : Q) :
  exists (s : Q) (k : nat) (unit : jsstring),
    loop (length units) (Finite q) 0 = (Finite s, k)
    /\ units !! k = Some unit
    /\ formatFileSize toFixed (Finite q)
       = toFixed (Finite s) 2 ++ lit " " ++ unit
    /\ (s * 1024 ^ Z.of_nat k == q)%Q
    /\ ((k < 4)%nat -> (s < 1024)%Q)
    /\ ((0 < k)%nat -> (1 <= s)%Q)
    /\ ((q < 1024)%Q -> k = 0%nat /\ s = q).
Proof.
  unfold formatFileSize.
  cbn [length units loop Nat.sub Nat.ltb Nat.leb].
  destruct (ge (Finite q) (of_Z 1024)) eqn:H0; cbn [andb div1024].
  2: { apply ge_1024_false in H0. exists q, 0%nat, (lit "B").
       do 3 (split; [reflexivity |]). split; [simpl; field |].
       split; [done |]. split; [lia | done]. }
  pose proof (ge_1024_true _ H0) as L0.
  assert (~ (q < 1024)%Q) as Hbig.
  { change (Qle_bool 1024 q = true) in H0. apply Qle_bool_iff in H0. lra. }
  destruct (ge (Finite (q / 1024)) (of_Z 1024)) eqn:H1; cbn [andb div1024].
  2: { apply ge_1024_false in H1. exists (q / 1024)%Q, 1%nat, (lit "KB").
       do 3 (split; [reflexivity |]). split; [simpl; field |].
       split; [done |]. split; [done | by intros ?]. }
  pose proof (ge_1024_true _ H1) as L1.
  destruct (ge (Finite (q / 1024 / 1024)) (of_Z 1024)) eqn:H2;
    cbn [andb div1024].
  2: { apply ge_1024_false in H2.
       exists (q / 1024 / 1024)%Q, 2%nat, (lit "MB").
       do 3 (split; [reflexivity |]). split; [simpl; field |].
       split; [done |]. split; [done | by intros ?]. }
  pose proof (ge_1024_true _ H2) as L2.
  destruct (ge (Finite (q / 1024 / 1024 / 1024)) (of_Z 1024)) eqn:H3;
    cbn [andb div1024].
  2: { apply ge_1024_false in H3.
       exists (q / 1024 / 1024 / 1024)%Q, 3%nat, (lit "GB").
       do 3 (split; [reflexivity |]). split; [simpl; field |].
       split; [done |]. split; [done | by intros ?]. }
  pose proof (ge_1024_true _ H3) as L3.
  rewrite andb_false_r.
  exists (q / 1024 / 1024 / 1024 / 1024)%Q, 4%nat, (lit "TB").
  do 3 (split; [reflexivity |]). split; [simpl; field |].
  split; [lia |]. split; [done | by intros ?].
Qed.

End FileSize.

(** ** Navigation and new windows *)

Section WindowPolicies.

Import Window.

(** X28: for a URL that parses, the main window's handler lets a navigation
    through only in development and only to the dev server's origin; what
    it lets through, the handler set for every web contents lets through
    as well; in production the main window's handler stops every
    navigation, [file:] URLs included, which the other handler alone would
    allow. *)
Theorem navigation_policy (isDev : bool)
  (origin : jsstring -> completion jsstring) (url parsed : jsstring) :
  origin url = Return parsed ->
  (main_will_navigate isDev origin url = ([], Return ())
   <-> isDev = true /\ parsed = VITE_DEV_SERVER_URL)
  /\ (main_will_navigate isDev origin url = ([], Return ()) ->
      contents_will_navigate isDev origin url = ([], Return ()))
  /\ (isDev = false ->
      PreventDefault ∈ (main_will_navigate isDev origin url).1
      /\ (contents_will_navigate isDev origin url = ([], Return ())
          <-> exists rest, url = lit "file://" ++ rest)).
Proof.
  intros Hparsed. unfold main_will_navigate, contents_will_navigate.
  rewrite Hparsed.
  destruct isDev; cbn [andb negb];
    destruct (bool_decide_reflect (parsed = VITE_DEV_SERVER_URL)) as [-> | Hne];
    cbn [negb].
  - by repeat split.
  - split; [split; [done | by intros [_ ?]] |]. by split.
  - split; [split; [done | by intros [? _]] |]. split; [done |]. intros _.
    split; [by repeat constructor |].
    rewrite <- startsWith_prefix.
    by destruct (startsWith url (lit "file://")).
  - split; [split; [done | by intros [? _]] |]. split; [done |]. intros _.
    split; [by repeat constructor |].
    rewrite <- startsWith_prefix.
    by destruct (startsWith url (lit "file://")).
Qed.

Lemma navigation_within_dev_server :
  main_will_navigate true (fun _ => Return VITE_DEV_SERVER_URL)
    (lit "http://localhost:5173/settings") = ([], Return ())
  /\ contents_will_navigate true (fun _ => Return VITE_DEV_SERVER_URL)
       (lit "http://localhost:5173/settings") = ([], Return ()).
Proof.
  destruct (navigation_policy true (fun _ => Return VITE_DEV_SERVER_URL)
              (lit "http://localhost:5173/settings") VITE_DEV_SERVER_URL
              eq_refl) as ([_ Hmain] & Hboth & _).
  split; [by apply Hmain | apply Hboth; by apply Hmain].
Defined.

(** X29: a request for a new window is always denied; the URL is handed to
    the system browser exactly when it begins with [https://], and nothing
    else is ever opened. *)
Theorem new_windows_denied (url : jsstring) :
  (window_open_handler url).2 = Deny
  /\ ((window_open_handler url).1 = [OpenExternal url]
      <-> exists rest, url = lit "https://" ++ rest)
  /\ ((window_open_handler url).1 = []
      <-> ~ exists rest, url = lit "https://" ++ rest).
Proof.
  unfold window_open_handler. rewrite <- startsWith_prefix.
  destruct (startsWith url (lit "https://")); cbn [fst snd].
  - split; [done |]. split; [done |]. split; [done | by intros []].
  - split; [done |]. split; [done |]. split; [by intros _ ? | done].
Qed.

End WindowPolicies.
